(** * Break-time discrepancy engine (analysis.py): a shallow embedding

    The development follows the layout of [analysis.py]:
    fuzzy name matching ([_split_camelcase], [_name_tokens],
    [_token_matches], [_overlap_score], [match_employees]), discrepancy
    calculation ([calculate_discrepancies]), conversation scripts
    ([build_script]) and the full pipeline ([run_analysis]).

    Conventions of the embedding.
    - A Python [str] is a Rocq [string]; each [ascii] stands for the code
      point of the same number (code points below 256).
    - A float64 is identified with the rational number it denotes ([Q], kept
      in lowest terms with [Qred]); the decimal roundings [round(x, n)] and
      [format(x, ".0f")] round half to even.  The subtraction of the
      classifier rounds its result to the nearest float64 ([float64]); the
      quotient of the score is kept exact.  Infinite values are not
      modelled.
    - A cell of a numeric column is a [cell]: Python's [None], the float NaN,
      or a number.  [pd.isna] holds of the first two.
    - A pandas [DataFrame] is a mutable object: frames live in a [Store] and
      are passed around by reference; [df["c"] = ...] updates the frame in
      place.  The frames of the two parsers are only read and are given as
      lists of records.
    - The parsers, the Excel export and the two stray lines above the module
      docstring of [analysis.py] are not part of the embedding. *)

From Stdlib Require Import List Bool Arith ZArith QArith Qround Qabs Qpower Lia Lqa.
From Stdlib Require Import Ascii String DecimalString.
From Stdlib Require Import Permutation Sorted.
Import ListNotations.

Local Open Scope string_scope.
Local Open Scope Z_scope.

(* ----------------------------------------------------------------- *)
(** ** Numbers                                                        *)
(* ----------------------------------------------------------------- *)

(** Strict and large comparisons of floats, as booleans. *)
Definition Qgtb (x y : Q) : bool :=
  match Qcompare x y with Gt => true | _ => false end.

Definition Qleb (x y : Q) : bool :=
  match Qcompare x y with Gt => false | _ => true end.

Definition Qgeb (x y : Q) : bool := Qleb y x.

(** Nearest integer, ties to the even one. *)
Definition round_half_even (x : Q) : Z :=
  let f := Qfloor x in
  match Qcompare (x - inject_Z f) (1 # 2) with
  | Lt => f
  | Gt => f + 1
  | Eq => if Z.even f then f else f + 1
  end.

Definition pow10 (n : nat) : positive := Nat.iter n (Pos.mul 10) 1%positive.

(** Python's [round(x, ndigits)]: the decimal with [ndigits] places
    nearest to [x], ties to the even one.  Python returns the float64
    nearest to that decimal; the decimal stands for it, since it compares
    with an integer and prints with [".0f"] as that float does. *)
Definition py_round (x : Q) (ndigits : nat) : Q :=
  Qred (Qmake (round_half_even (x * inject_Z (Zpos (pow10 ndigits)))) (pow10 ndigits)).

(** [2 ^ e] for an integer [e] of any sign. *)
Definition pow2 (e : Z) : Q := Qpower 2 e.

(** [floor (log2 x)] for a positive [x]: the difference of the bit lengths
    of numerator and denominator, or one less. *)
Definition ilog2 (x : Q) : Z :=
  let k := Z.log2 (Qnum x) - Z.log2 (Zpos (Qden x)) in
  if Qleb (pow2 k) x then k else k - 1.

(** The float64 nearest to a real number, ties to the even significand:
    53 significant bits from [2 ^ -1022] on, the multiples of [2 ^ -1074]
    below.  A result beyond the largest float64, which the machine turns
    into an infinity, is not modelled: the embedding covers the numbers
    whose magnitude stays within [float64_max]. *)
Definition float64 (x : Q) : Q :=
  match Qnum x with
  | 0 => 0%Q
  | _ =>
      let e := Z.max (ilog2 (Qabs x)) (-1022) in
      let ulp := pow2 (e - 52) in
      Qred (inject_Z (round_half_even (x / ulp)) * ulp)
  end.


Definition string_of_Z (z : Z) : string := NilZero.string_of_int (Z.to_int z).

(** Python's [format(x, ".0f")] on a finite float. *)
Definition format_0f (x : Q) : string :=
  let digits := string_of_Z (round_half_even (Qabs x)) in
  if Qgtb 0 x then "-" ++ digits else digits.

(** A cell of a numeric column. *)
Inductive cell : Type :=
| CNone
| CNaN
| CNum (q : Q).

(** [pd.isna] / [pd.notna]. *)
Definition isna (c : cell) : bool :=
  match c with CNum _ => false | _ => true end.

Definition notna (c : cell) : bool := negb (isna c).

(* ----------------------------------------------------------------- *)
(** ** Errors                                                         *)
(* ----------------------------------------------------------------- *)

Inductive exception : Type :=
| TypeError
| KeyError.

Inductive outcome (A : Type) : Type :=
| Ok (a : A)
| Raise (e : exception).

Arguments Ok {A} a.
Arguments Raise {A} e.

(* ----------------------------------------------------------------- *)
(** ** Characters and strings                                         *)
(* ----------------------------------------------------------------- *)

Definition code (c : ascii) : nat := nat_of_ascii c.

Definition is_lower (c : ascii) : bool :=
  (97 <=? code c)%nat && (code c <=? 122)%nat.

Definition is_upper (c : ascii) : bool :=
  (65 <=? code c)%nat && (code c <=? 90)%nat.

Definition is_letter (c : ascii) : bool := is_lower c || is_upper c.

(** Whitespace in the sense of [str.isspace] and of the regex class [\s]. *)
Definition is_space (c : ascii) : bool :=
  let n := code c in
  ((9 <=? n)%nat && (n <=? 13)%nat) || ((28 <=? n)%nat && (n <=? 32)%nat)
  || (n =? 133)%nat || (n =? 160)%nat.

Definition to_lower (c : ascii) : ascii :=
  if is_upper c then ascii_of_nat (code c + 32) else c.

Fixpoint string_map (f : ascii -> ascii) (s : string) : string :=
  match s with
  | EmptyString => EmptyString
  | String c s' => String (f c) (string_map f s')
  end.

Fixpoint string_rev (s : string) : string :=
  match s with
  | EmptyString => EmptyString
  | String c s' => string_rev s' ++ String c EmptyString
  end.

Fixpoint lstrip (s : string) : string :=
  match s with
  | EmptyString => EmptyString
  | String c s' => if is_space c then lstrip s' else s
  end.

(** [str.strip()]. *)
Definition strip (s : string) : string :=
  string_rev (lstrip (string_rev (lstrip s))).

(** [str.lower()]. *)
Definition lower (s : string) : string := string_map to_lower s.

(** [str.split()]: the maximal runs of non-whitespace characters.  [cur] is
    the run being read, reversed. *)
Fixpoint split_aux (s : string) (cur : string) : list string :=
  match s with
  | EmptyString =>
      match cur with EmptyString => [] | _ => [string_rev cur] end
  | String c s' =>
      if is_space c then
        match cur with
        | EmptyString => split_aux s' EmptyString
        | _ => string_rev cur :: split_aux s' EmptyString
        end
      else split_aux s' (String c cur)
  end.

Definition split (s : string) : list string := split_aux s EmptyString.

(** [a in b] on strings: [a] occurs in [b] as a contiguous substring. *)
Fixpoint contains (a b : string) : bool :=
  prefix a b ||
  match b with
  | EmptyString => false
  | String _ b' => contains a b'
  end.

(** The elements of a Python [set] of strings, each listed once. *)
Definition set_of (l : list string) : list string := nodup string_dec l.

(* ----------------------------------------------------------------- *)
(** ** Fuzzy name matching                                            *)
(* ----------------------------------------------------------------- *)

(** [re.sub(r"([a-z])([A-Z])", r"\1 \2", name)]: matches are found left to
    right and do not overlap. *)
Fixpoint camel_sub (s : string) : string :=
  match s with
  | EmptyString => EmptyString
  | String c1 tl =>
      match tl with
      | EmptyString => s
      | String c2 rest =>
          if is_lower c1 && is_upper c2
          then String c1 (String " " (String c2 (camel_sub rest)))
          else String c1 (camel_sub tl)
      end
  end.

Definition _split_camelcase (name : string) : string := strip (camel_sub name).

(** [re.sub(r"[^a-zA-Z\s]", " ", name)]. *)
Definition letters_only (s : string) : string :=
  string_map (fun c => if is_letter c || is_space c then c else " "%char) s.

Definition _name_tokens (name : string) : list string :=
  let name := _split_camelcase name in
  let name := lower (letters_only name) in
  set_of (filter (fun w => (1 <? String.length w)%nat) (split name)).

Definition _token_matches (ta tb : list string) : nat :=
  List.length
    (filter (fun a => existsb (fun b => contains a b || contains b a) tb) ta).

Definition _overlap_score (name_a name_b : string) : Q :=
  let ta := _name_tokens name_a in
  let tb := _name_tokens name_b in
  match ta, tb with
  | [], _ | _, [] => 0
  | _, _ =>
      Qred (Qmake (Z.of_nat (_token_matches ta tb))
                  (Pos.of_nat (Nat.max (List.length ta) (List.length tb))))
  end.

(* ----------------------------------------------------------------- *)
(** ** Records and frames                                             *)
(* ----------------------------------------------------------------- *)

(** A timestamp is only carried along; it is kept as a number of minutes. *)
Definition timestamp : Type := Z.

(** A row of the frame returned by [parse_adp] (source A). *)
Module Adp.
Record record : Type := {
  adp_name : string;
  adp_break_start : option timestamp;
  adp_break_end : option timestamp;
  adp_break_minutes : cell
}.
End Adp.

(** A row of the frame returned by [parse_amazon] (source B). *)
Module Amazon.
Record record : Type := {
  amz_name : string;
  transporter_id : option string;
  amz_break_start : option timestamp;
  amz_break_end : option timestamp;
  amz_break_minutes : cell
}.
End Amazon.

(** A row of the merged frame.  The first ten fields are the keys of the
    dicts built by [match_employees]; the others are the columns added
    later, [None] as long as the column does not exist ([row.get] then
    answers [None]). *)
Record Row : Type := mkRow {
  adp_name : option string;
  adp_break_start : option timestamp;
  adp_break_end : option timestamp;
  adp_break_minutes : cell;
  amz_name : option string;
  transporter_id : option string;
  amz_break_start : option timestamp;
  amz_break_end : option timestamp;
  amz_break_minutes : cell;
  match_score : Q;
  diff_minutes : cell;
  severity : option string;
  direction : option string;
  needs_action : option bool;
  _sort : option nat;
  conversation_script : option string
}.

Definition set_adp_break_minutes (r : Row) (v : cell) : Row :=
  mkRow (adp_name r) (adp_break_start r) (adp_break_end r) v
        (amz_name r) (transporter_id r) (amz_break_start r) (amz_break_end r)
        (amz_break_minutes r) (match_score r) (diff_minutes r) (severity r)
        (direction r) (needs_action r) (_sort r) (conversation_script r).

Definition set_amz_break_minutes (r : Row) (v : cell) : Row :=
  mkRow (adp_name r) (adp_break_start r) (adp_break_end r) (adp_break_minutes r)
        (amz_name r) (transporter_id r) (amz_break_start r) (amz_break_end r)
        v (match_score r) (diff_minutes r) (severity r)
        (direction r) (needs_action r) (_sort r) (conversation_script r).

Definition set_diff_minutes (r : Row) (v : cell) : Row :=
  mkRow (adp_name r) (adp_break_start r) (adp_break_end r) (adp_break_minutes r)
        (amz_name r) (transporter_id r) (amz_break_start r) (amz_break_end r)
        (amz_break_minutes r) (match_score r) v (severity r)
        (direction r) (needs_action r) (_sort r) (conversation_script r).

Definition set_severity (r : Row) (v : string) : Row :=
  mkRow (adp_name r) (adp_break_start r) (adp_break_end r) (adp_break_minutes r)
        (amz_name r) (transporter_id r) (amz_break_start r) (amz_break_end r)
        (amz_break_minutes r) (match_score r) (diff_minutes r) (Some v)
        (direction r) (needs_action r) (_sort r) (conversation_script r).

Definition set_direction (r : Row) (v : string) : Row :=
  mkRow (adp_name r) (adp_break_start r) (adp_break_end r) (adp_break_minutes r)
        (amz_name r) (transporter_id r) (amz_break_start r) (amz_break_end r)
        (amz_break_minutes r) (match_score r) (diff_minutes r) (severity r)
        (Some v) (needs_action r) (_sort r) (conversation_script r).

Definition set_needs_action (r : Row) (v : bool) : Row :=
  mkRow (adp_name r) (adp_break_start r) (adp_break_end r) (adp_break_minutes r)
        (amz_name r) (transporter_id r) (amz_break_start r) (amz_break_end r)
        (amz_break_minutes r) (match_score r) (diff_minutes r) (severity r)
        (direction r) (Some v) (_sort r) (conversation_script r).

Definition set__sort (r : Row) (v : nat) : Row :=
  mkRow (adp_name r) (adp_break_start r) (adp_break_end r) (adp_break_minutes r)
        (amz_name r) (transporter_id r) (amz_break_start r) (amz_break_end r)
        (amz_break_minutes r) (match_score r) (diff_minutes r) (severity r)
        (direction r) (needs_action r) (Some v) (conversation_script r).

Definition set_conversation_script (r : Row) (v : string) : Row :=
  mkRow (adp_name r) (adp_break_start r) (adp_break_end r) (adp_break_minutes r)
        (amz_name r) (transporter_id r) (amz_break_start r) (amz_break_end r)
        (amz_break_minutes r) (match_score r) (diff_minutes r) (severity r)
        (direction r) (needs_action r) (_sort r) (Some v).

(** A frame: its column labels and its rows, in positional order. *)
Record DataFrame : Type := mkFrame {
  columns : list string;
  rows : list Row
}.

(** [df[label] = values]: the column is written row by row; its label is
    appended to the columns when it is new. *)
Definition add_label (label : string) (cols : list string) : list string :=
  if existsb (String.eqb label) cols then cols else (cols ++ [label])%list.

Fixpoint write_column {X : Type} (set : Row -> X -> Row)
         (rs : list Row) (values : list X) : list Row :=
  match rs, values with
  | r :: rs', v :: values' => set r v :: write_column set rs' values'
  | _, _ => rs
  end.

Definition set_column {X : Type} (label : string) (set : Row -> X -> Row)
           (values : list X) (df : DataFrame) : DataFrame :=
  mkFrame (add_label label (columns df)) (write_column set (rows df) values).

(** Type inference of a column built from Python objects: as soon as one
    float occurs (NaN included) the column is a float column and [None]
    is stored as NaN; a column of [None] only keeps its objects. *)
Definition is_float (c : cell) : bool :=
  match c with CNone => false | _ => true end.

Definition as_float (c : cell) : cell :=
  match c with CNone => CNaN | _ => c end.

Definition infer_floats (col : list cell) : list cell :=
  if existsb is_float col then map as_float col else col.

Definition matched_columns : list string :=
  ["adp_name"; "adp_break_start"; "adp_break_end"; "adp_break_minutes";
   "amz_name"; "transporter_id"; "amz_break_start"; "amz_break_end";
   "amz_break_minutes"; "match_score"].

(** [pd.DataFrame(records)] on the dicts of [match_employees]: an empty
    list gives a frame without columns.  Type inference is followed for the
    two columns of minutes, the only ones whose cells are computed with;
    the names stay Python objects, [None] included. *)
Definition DataFrame_of_records (records : list Row) : DataFrame :=
  match records with
  | [] => mkFrame [] []
  | _ =>
      let rs := write_column set_adp_break_minutes records
                  (infer_floats (map adp_break_minutes records)) in
      let rs := write_column set_amz_break_minutes rs
                  (infer_floats (map amz_break_minutes rs)) in
      mkFrame matched_columns rs
  end.

(* ----------------------------------------------------------------- *)
(** ** The store of frames                                            *)
(* ----------------------------------------------------------------- *)

Definition ref : Type := nat.
Definition Store : Type := list DataFrame.

(** Computations that read and update the store and may raise. *)
Definition M (A : Type) : Type := Store -> outcome (A * Store).

Definition ret {A : Type} (a : A) : M A := fun s => Ok (a, s).

Definition bind {A B : Type} (m : M A) (k : A -> M B) : M B :=
  fun s => match m s with
           | Ok (a, s') => k a s'
           | Raise e => Raise e
           end.

Definition raise {A : Type} (e : exception) : M A := fun _ => Raise e.

Definition lift {A : Type} (x : outcome A) : M A :=
  fun s => match x with Ok a => Ok (a, s) | Raise e => Raise e end.

Notation "x <- m ;; k" := (bind m (fun x => k))
  (at level 61, m at next level, right associativity).
Notation "m ;;; k" := (bind m (fun _ => k))
  (at level 61, right associativity).

(** A new frame object. *)
Definition new_frame (df : DataFrame) : M ref :=
  fun s => Ok (List.length s, (s ++ [df])%list).

Definition get_frame (r : ref) : M DataFrame :=
  fun s => match nth_error s r with
           | Some df => Ok (df, s)
           | None => Raise KeyError
           end.

Fixpoint replace_nth {X : Type} (n : nat) (x : X) (l : list X) : list X :=
  match n, l with
  | O, _ :: l' => x :: l'
  | S n', y :: l' => y :: replace_nth n' x l'
  | _, [] => []
  end.

(** In-place update of the frame object [r]. *)
Definition update_frame (r : ref) (f : DataFrame -> DataFrame) : M unit :=
  fun s => match nth_error s r with
           | Some df => Ok (tt, replace_nth r (f df) s)
           | None => Raise KeyError
           end.

(** [map] for a function that may raise: the first exception wins. *)
Fixpoint try_map {X Y : Type} (f : X -> outcome Y) (l : list X) : outcome (list Y) :=
  match l with
  | [] => Ok []
  | x :: l' =>
      match f x with
      | Raise e => Raise e
      | Ok y => match try_map f l' with
                | Raise e => Raise e
                | Ok ys => Ok (y :: ys)
                end
      end
  end.

(** A loop whose body may raise. *)
Fixpoint try_fold {S X : Type} (f : S -> X -> outcome S) (l : list X) (s : S)
  : outcome S :=
  match l with
  | [] => Ok s
  | x :: l' =>
      match f s x with
      | Ok s' => try_fold f l' s'
      | Raise e => Raise e
      end
  end.

(* ----------------------------------------------------------------- *)
(** ** match_employees                                                *)
(* ----------------------------------------------------------------- *)

Definition THRESHOLD : Q := 33 # 100.

(** [df.iterrows()] on a frame whose index is [0 .. len(df) - 1], as
    [reset_index(drop=True)] leaves it. *)
Definition iterrows {X : Type} (df : list X) : list (nat * X) :=
  combine (seq 0 (List.length df)) df.

(** The inner loop: one iteration, on the pair [(best_score, best_amz_idx)]. *)
Definition best_step (adp_row : Adp.record) (best : Q * option nat)
           (it : nat * Amazon.record) : Q * option nat :=
  let '(amz_idx, amz_row) := it in
  let score := _overlap_score (Adp.adp_name adp_row) (Amazon.amz_name amz_row) in
  if Qgtb score (fst best) then (score, Some amz_idx) else best.

Definition best_match (adp_row : Adp.record) (amazon_df : list Amazon.record)
  : Q * option nat :=
  fold_left (best_step adp_row) (iterrows amazon_df) (0%Q, None).

(** [{**adp_row.to_dict(), **amz_row.to_dict(), "match_score": score}] *)
Definition paired_record (a : Adp.record) (b : Amazon.record) (score : Q) : Row :=
  mkRow (Some (Adp.adp_name a)) (Adp.adp_break_start a) (Adp.adp_break_end a)
        (Adp.adp_break_minutes a)
        (Some (Amazon.amz_name b)) (Amazon.transporter_id b)
        (Amazon.amz_break_start b) (Amazon.amz_break_end b)
        (Amazon.amz_break_minutes b)
        score CNone None None None None None.

(** [{**adp_row.to_dict(), "amz_name": None, ..., "match_score": 0}] *)
Definition adp_only_record (a : Adp.record) : Row :=
  mkRow (Some (Adp.adp_name a)) (Adp.adp_break_start a) (Adp.adp_break_end a)
        (Adp.adp_break_minutes a)
        None None None None CNone
        0%Q CNone None None None None None.

(** [{"adp_name": None, ..., **amz_row.to_dict(), "match_score": 0}] *)
Definition amz_only_record (b : Amazon.record) : Row :=
  mkRow None None None CNone
        (Some (Amazon.amz_name b)) (Amazon.transporter_id b)
        (Amazon.amz_break_start b) (Amazon.amz_break_end b)
        (Amazon.amz_break_minutes b)
        0%Q CNone None None None None None.

(** [used_amz]: a set of index labels. *)
Definition set_add (i : nat) (s : list nat) : list nat :=
  if existsb (Nat.eqb i) s then s else i :: s.

Definition set_mem (i : nat) (s : list nat) : bool := existsb (Nat.eqb i) s.

(** The body of the first loop, on the pair [(used_amz, matches)].  The
    test [best_score >= THRESHOLD and best_amz_idx is not None] is the
    pattern matching on [best_amz_idx] followed by the comparison;
    [amazon_df.loc[best_amz_idx]] raises [KeyError] on a label that is not
    in the index. *)
Definition match_step (amazon_df : list Amazon.record)
           (st : list nat * list Row) (adp_row : Adp.record)
  : outcome (list nat * list Row) :=
  let '(used_amz, matches) := st in
  let '(best_score, best_amz_idx) := best_match adp_row amazon_df in
  match best_amz_idx with
  | Some idx =>
      if Qgeb best_score THRESHOLD then
        match nth_error amazon_df idx with
        | Some amz_row =>
            Ok (set_add idx used_amz,
                (matches ++ [paired_record adp_row amz_row (py_round best_score 2)])%list)
        | None => Raise KeyError
        end
      else Ok (used_amz, (matches ++ [adp_only_record adp_row])%list)
  | None => Ok (used_amz, (matches ++ [adp_only_record adp_row])%list)
  end.

(** The body of the second loop. *)
Definition unmatched_step (used_amz : list nat) (matches : list Row)
           (it : nat * Amazon.record) : list Row :=
  let '(amz_idx, amz_row) := it in
  if set_mem amz_idx used_amz then matches
  else (matches ++ [amz_only_record amz_row])%list.

(** The list [matches] at the end of the two loops. *)
Definition match_records (adp_df : list Adp.record) (amazon_df : list Amazon.record)
  : outcome (list Row) :=
  match try_fold (match_step amazon_df) adp_df ([], []) with
  | Ok (used_amz, matches) =>
      Ok (fold_left (unmatched_step used_amz) (iterrows amazon_df) matches)
  | Raise e => Raise e
  end.

Definition match_employees (adp_df : list Adp.record) (amazon_df : list Amazon.record)
  : M ref :=
  matches <- lift (match_records adp_df amazon_df) ;;
  new_frame (DataFrame_of_records matches).

(* ----------------------------------------------------------------- *)
(** ** calculate_discrepancies                                        *)
(* ----------------------------------------------------------------- *)

(** [round(a - b, 1)]: the subtraction is the one of float64. *)
Definition _diff (row : Row) : cell :=
  match amz_break_minutes row, adp_break_minutes row with
  | CNum a, CNum b => CNum (py_round (float64 (a - b)) 1)
  | _, _ => CNone
  end.

(** [abs(row["diff_minutes"])] raises on [None]; a comparison with NaN is
    false. *)
Definition _severity (row : Row) : outcome string :=
  if isna (amz_break_minutes row) || isna (adp_break_minutes row)
  then Ok "Missing Entry"
  else match diff_minutes row with
       | CNone => Raise TypeError
       | CNaN => Ok "Major"
       | CNum diff =>
           let d := Qabs diff in
           if Qleb d 1 then Ok "Match"
           else if Qleb d 5 then Ok "Minor"
           else if Qleb d 15 then Ok "Moderate"
           else Ok "Major"
       end.

Definition opt_eqb (o : option string) (s : string) : bool :=
  match o with Some x => String.eqb x s | None => false end.

Definition _direction (row : Row) : string :=
  if opt_eqb (severity row) "Missing Entry" then "Warning Missing"
  else match diff_minutes row with
       | CNone | CNaN => "-"
       | CNum d =>
           if Qleb (Qabs d) 1 then "Match"
           else if Qgtb d 0 then "Amazon > ADP" else "ADP > Amazon"
       end.

(** [Series.isin(values)] on one cell. *)
Definition isin (o : option string) (values : list string) : bool :=
  existsb (opt_eqb o) values.

Definition calculate_discrepancies (df : ref) : M ref :=
  d <- get_frame df ;;
  update_frame df
    (set_column "diff_minutes" set_diff_minutes (infer_floats (map _diff (rows d)))) ;;;
  d <- get_frame df ;;
  sev <- lift (try_map _severity (rows d)) ;;
  update_frame df (set_column "severity" set_severity sev) ;;;
  d <- get_frame df ;;
  update_frame df (set_column "direction" set_direction (map _direction (rows d))) ;;;
  d <- get_frame df ;;
  update_frame df
    (set_column "needs_action" set_needs_action
       (map (fun r => isin (severity r) ["Minor"; "Moderate"; "Major"; "Missing Entry"])
            (rows d))) ;;;
  ret df.

(* ----------------------------------------------------------------- *)
(** ** build_script                                                   *)
(* ----------------------------------------------------------------- *)

(** [x or y] on optional strings: [None] and the empty string are false. *)
Definition or_else (x : option string) (y : string) : string :=
  match x with
  | Some EmptyString | None => y
  | Some s => s
  end.

(** [f"{x:.0f}"]: [None] does not accept the format, NaN prints as [nan]. *)
Definition fmt_0f (x : cell) : outcome string :=
  match x with
  | CNone => Raise TypeError
  | CNaN => Ok "nan"
  | CNum q => Ok (format_0f q)
  end.

(** [x > 0]: [None] is not comparable with a number, NaN compares false. *)
Definition gt_zero (x : cell) : outcome bool :=
  match x with
  | CNone => Raise TypeError
  | CNaN => Ok false
  | CNum q => Ok (Qgtb q 0)
  end.

(** [abs(x)] *)
Definition cell_abs (x : cell) : cell :=
  match x with
  | CNum q => CNum (Qabs q)
  | _ => x
  end.

Definition try {A B : Type} (x : outcome A) (k : A -> outcome B) : outcome B :=
  match x with
  | Ok a => k a
  | Raise e => Raise e
  end.

Definition script_match : string := "No action needed - break times match.".

Definition script_no_amazon (emp b_m : string) : string :=
  "Hi " ++ emp ++ ", I see you have a break logged in ADP (" ++ b_m ++ " min) "
  ++ "but we have no record in the Amazon Delivery App. "
  ++ "Did you log your break in the app today? Please update it before end of day.".

Definition script_no_adp (emp a_m : string) : string :=
  "Hi " ++ emp ++ ", we have your break in the Amazon app (" ++ a_m ++ " min) "
  ++ "but there is no matching entry in ADP. "
  ++ "Can you log your break in ADP before 5 PM today?".

Definition script_discrepancy (emp longer diff shorter a_m b_m : string) : string :=
  "Hi " ++ emp ++ ", we noticed a discrepancy in your break times today - "
  ++ "your " ++ longer ++ " shows " ++ diff ++ " more minutes than your " ++ shorter ++ ". "
  ++ "Amazon recorded " ++ a_m ++ " min and ADP recorded " ++ b_m ++ " min. "
  ++ "Please review both entries and correct whichever is inaccurate by end of day.".

Definition build_script (row : Row) : outcome string :=
  let emp := or_else (adp_name row) (or_else (amz_name row) "Employee") in
  let sev := match severity row with Some s => s | None => "" end in
  let a_m := amz_break_minutes row in
  let b_m := adp_break_minutes row in
  let diff := diff_minutes row in
  if String.eqb sev "Match" then Ok script_match
  else if String.eqb sev "Missing Entry" then
    if isna a_m
    then try (fmt_0f b_m) (fun b => Ok (script_no_amazon emp b))
    else try (fmt_0f a_m) (fun a => Ok (script_no_adp emp a))
  else
    try (gt_zero diff) (fun pos =>
    let longer := if pos then "Amazon app" else "ADP" in
    let shorter := if pos then "ADP" else "Amazon app" in
    try (fmt_0f (cell_abs diff)) (fun d =>
    try (fmt_0f a_m) (fun a =>
    try (fmt_0f b_m) (fun b =>
    Ok (script_discrepancy emp longer d shorter a b))))).

(* ----------------------------------------------------------------- *)
(** ** run_analysis                                                   *)
(* ----------------------------------------------------------------- *)

Definition sev_order : list (string * nat) :=
  [("Major", 0%nat); ("Moderate", 1%nat); ("Minor", 2%nat);
   ("Missing Entry", 3%nat); ("Match", 4%nat)].

Fixpoint dict_get (d : list (string * nat)) (k : string) : option nat :=
  match d with
  | [] => None
  | (k', v) :: d' => if String.eqb k k' then Some v else dict_get d' k
  end.

(** One cell of [result["severity"].map(sev_order).fillna(5)]. *)
Definition sev_rank (sev : option string) : nat :=
  match sev with
  | Some s => match dict_get sev_order s with Some n => n | None => 5%nat end
  | None => 5%nat
  end.

(** Order of one sort column, ascending, missing values last. *)
Definition na_last_ltb {X : Type} (ltb : X -> X -> bool) (x y : option X) : bool :=
  match x, y with
  | Some a, Some b => ltb a b
  | Some _, None => true
  | None, _ => false
  end.

Definition na_last_leb {X : Type} (leb : X -> X -> bool) (x y : option X) : bool :=
  match x, y with
  | Some a, Some b => leb a b
  | _, None => true
  | None, Some _ => false
  end.

(** The order of [sort_values(["_sort", "adp_name"])]: by [_sort], then by
    [adp_name]. *)
Definition key_leb (r1 r2 : Row) : bool :=
  na_last_ltb Nat.ltb (_sort r1) (_sort r2)
  || (na_last_leb Nat.leb (_sort r1) (_sort r2)
      && na_last_leb String.leb (adp_name r1) (adp_name r2)).

(** A stable sort: a row is inserted in front of the first row that is
    not below it. *)
Fixpoint insert_row (r : Row) (l : list Row) : list Row :=
  match l with
  | [] => [r]
  | y :: l' => if key_leb r y then r :: l else y :: insert_row r l'
  end.

Definition stable_sort (l : list Row) : list Row := fold_right insert_row [] l.

Definition has_column (df : DataFrame) (label : string) : bool :=
  existsb (String.eqb label) (columns df).

(** [df.sort_values(["_sort", "adp_name"]).reset_index(drop=True)]: a new
    frame; a label that is not a column raises [KeyError]. *)
Definition sort_values (df : DataFrame) : outcome DataFrame :=
  if has_column df "_sort" && has_column df "adp_name"
  then Ok (mkFrame (columns df) (stable_sort (rows df)))
  else Raise KeyError.

(** The pipeline after the two parsers, on their frames. *)
Definition run_analysis (adp_df : list Adp.record) (amazon_df : list Amazon.record)
  : M ref :=
  merged <- match_employees adp_df amazon_df ;;
  result <- calculate_discrepancies merged ;;
  d <- get_frame result ;;
  update_frame result
    (set_column "_sort" set__sort (map (fun r => sev_rank (severity r)) (rows d))) ;;;
  d <- get_frame result ;;
  sorted <- lift (sort_values d) ;;
  result <- new_frame sorted ;;
  d <- get_frame result ;;
  scripts <- lift (try_map build_script (rows d)) ;;
  update_frame result
    (set_column "conversation_script" set_conversation_script scripts) ;;;
  ret result.

(** Running a computation in a fresh store and reading the frame it returns. *)
Definition frame_of (m : M ref) : outcome DataFrame :=
  match m [] with
  | Ok (r, s) =>
      match nth_error s r with
      | Some df => Ok df
      | None => Raise KeyError
      end
  | Raise e => Raise e
  end.

Definition run (adp_df : list Adp.record) (amazon_df : list Amazon.record)
  : outcome DataFrame :=
  frame_of (run_analysis adp_df amazon_df).

(* ----------------------------------------------------------------- *)
(** ** Sample data                                                    *)
(* ----------------------------------------------------------------- *)

Definition adp_rec (name : string) (minutes : cell) : Adp.record :=
  Adp.Build_record name None None minutes.

Definition amz_rec (name : string) (minutes : cell) : Amazon.record :=
  Amazon.Build_record name None None None minutes.

(* ----------------------------------------------------------------- *)
(** ** The matcher, as its description words it                       *)
(* ----------------------------------------------------------------- *)

(** The scores of one source-A record against every source-B record. *)
Definition scores (adp_row : Adp.record) (amazon_df : list Amazon.record) : list Q :=
  map (fun b => _overlap_score (Adp.adp_name adp_row) (Amazon.amz_name b)) amazon_df.

(** Position and value of the highest score, the first one among equals. *)
Fixpoint first_max (l : list Q) : option (nat * Q) :=
  match l with
  | [] => None
  | x :: l' =>
      match first_max l' with
      | Some (i, m) => if Qgtb m x then Some (S i, m) else Some (O, x)
      | None => Some (O, x)
      end
  end.

(** The source-B record selected for a source-A record: the best one, when
    its score reaches the threshold. *)
Definition selected (adp_row : Adp.record) (amazon_df : list Amazon.record)
  : option (nat * Amazon.record * Q) :=
  match first_max (scores adp_row amazon_df) with
  | Some (i, s) =>
      if Qgeb s THRESHOLD then
        match nth_error amazon_df i with
        | Some b => Some (i, b, s)
        | None => None
        end
      else None
  | None => None
  end.

(** The record emitted for a source-A record; [stored] is what becomes of
    the score when it is written into the record. *)
Definition emitted (stored : Q -> Q) (amazon_df : list Amazon.record)
           (adp_row : Adp.record) : Row :=
  match selected adp_row amazon_df with
  | Some (_, b, s) => paired_record adp_row b (stored s)
  | None => adp_only_record adp_row
  end.

(** A source-B record is claimed when some source-A record selected it. *)
Definition claimed (adp_df : list Adp.record) (amazon_df : list Amazon.record)
           (i : nat) : bool :=
  existsb (fun a => match selected a amazon_df with
                    | Some (j, _, _) => Nat.eqb i j
                    | None => false
                    end) adp_df.

Definition matcher_described (stored : Q -> Q)
           (adp_df : list Adp.record) (amazon_df : list Amazon.record) : list Row :=
  (map (emitted stored amazon_df) adp_df
   ++ map (fun it => amz_only_record (snd it))
          (filter (fun it => negb (claimed adp_df amazon_df (fst it)))
                  (iterrows amazon_df)))%list.

(* ----------------------------------------------------------------- *)
(** ** Auxiliary definitions for the statements                       *)
(* ----------------------------------------------------------------- *)

(** What [match_employees] stores as [match_score]. *)
Definition stored_score (s : Q) : Q := py_round s 2.

(** The index labels claimed by the source-A records of [adp_df]. *)
Definition used_by (amazon_df : list Amazon.record) (adp_df : list Adp.record)
           (used_amz : list nat) : list nat :=
  fold_left (fun u a => match selected a amazon_df with
                        | Some (i, _, _) => set_add i u
                        | None => u
                        end) adp_df used_amz.

(** A cell of a column after type inference. *)
Definition float_if_any (col : list cell) (c : cell) : cell :=
  if existsb is_float col then as_float c else c.

(** A dict of [records] as a row of [pd.DataFrame(records)]. *)
Definition as_stored (records : list Row) (r : Row) : Row :=
  set_amz_break_minutes
    (set_adp_break_minutes r
       (float_if_any (map adp_break_minutes records) (adp_break_minutes r)))
    (float_if_any (map amz_break_minutes records) (amz_break_minutes r)).

(** The severity computed for a row whose [_severity] does not raise. *)
Definition severity_value (r : Row) : string :=
  match _severity r with Ok s => s | Raise _ => "" end.

Definition action_severities : list string :=
  ["Minor"; "Moderate"; "Major"; "Missing Entry"].

(** One row through the four column assignments of
    [calculate_discrepancies]; [col] is the whole column of differences,
    before type inference. *)
Definition classify (col : list cell) (r : Row) : Row :=
  let r1 := set_diff_minutes r (float_if_any col (_diff r)) in
  let r2 := set_severity r1 (severity_value r1) in
  let r3 := set_direction r2 (_direction r2) in
  set_needs_action r3 (isin (severity r3) action_severities).

(** The frame after [calculate_discrepancies]. *)
Definition classified (df : DataFrame) : DataFrame :=
  mkFrame
    (add_label "needs_action"
       (add_label "direction"
          (add_label "severity" (add_label "diff_minutes" (columns df)))))
    (map (classify (map _diff (rows df))) (rows df)).

(** The frame after [result["_sort"] = ...]. *)
Definition keyed (df : DataFrame) : DataFrame :=
  set_column "_sort" set__sort (map (fun r => sev_rank (severity r)) (rows df)) df.

(** The classifier applied to a frame of its own. *)
Definition classify_frame (df : DataFrame) : M ref :=
  r <- new_frame df ;; calculate_discrepancies r.

(** The steps of [run_analysis] before the sort. *)
Definition classify_matches (adp_df : list Adp.record) (amazon_df : list Amazon.record)
  : M ref :=
  merged <- match_employees adp_df amazon_df ;;
  calculate_discrepancies merged.

(** The order of the names in the sort, as a proposition: ascending, a
    missing name after every name. *)
Definition name_le (x y : option string) : Prop :=
  na_last_leb String.leb x y = true.

Definition key_le (r1 r2 : Row) : Prop := key_leb r1 r2 = true.

Definition same_name (x y : option string) : bool :=
  match x, y with
  | Some a, Some b => String.eqb a b
  | None, None => true
  | _, _ => false
  end.

(** The rows of severity rank [k] and source-A name [n]. *)
Definition has_key (k : nat) (n : option string) (r : Row) : bool :=
  Nat.eqb (sev_rank (severity r)) k && same_name (adp_name r) n.

(** The script of a row on which [build_script] does not raise. *)
Definition script_value (r : Row) : string :=
  match build_script r with Ok s => s | Raise _ => "" end.

(** A classified row with the two columns [run_analysis] adds. *)
Definition with_sort_key (r : Row) : Row := set__sort r (sev_rank (severity r)).

Definition with_script (r : Row) : Row := set_conversation_script r (script_value r).

(** The order the pipeline is described to have: a record without a
    source-A name would take part with its source-B name. *)
Definition display_name (r : Row) : option string :=
  match adp_name r with
  | Some n => Some n
  | None => amz_name r
  end.

Definition described_order (r1 r2 : Row) : Prop :=
  (sev_rank (severity r1) < sev_rank (severity r2))%nat \/
  (sev_rank (severity r1) = sev_rank (severity r2) /\
   name_le (display_name r1) (display_name r2)).

(** The order the pipeline has. *)
Definition sorted_order (r1 r2 : Row) : Prop :=
  (sev_rank (severity r1) < sev_rank (severity r2))%nat \/
  (sev_rank (severity r1) = sev_rank (severity r2) /\
   name_le (adp_name r1) (adp_name r2)).

(** The frame the sort receives. *)
Definition sort_input (adp_df : list Adp.record) (amazon_df : list Amazon.record)
  : DataFrame :=
  keyed (classified (DataFrame_of_records
                       (matcher_described stored_score adp_df amazon_df))).


(** Sample frames of the two parsers. *)
Definition sample_adp : list Adp.record :=
  [adp_rec "John Smith" (CNum 20); adp_rec "Zed Young" (CNum 18);
   adp_rec "Jon Smith" (CNum 40); adp_rec "Amy Wu" (CNum 30)].

Definition sample_amazon : list Amazon.record :=
  [amz_rec "JohnSmith99" (CNum 30); amz_rec "Al Bo" (CNum 25);
   amz_rec "AmyWu" (CNum (61 # 2))].

Definition sample_output : DataFrame :=
  Eval vm_compute in
    match run sample_adp sample_amazon with
    | Ok df => df
    | Raise _ => mkFrame [] []
    end.

(** Frames on which script generation fails: the only source-A record has no
    break minutes and finds no match. *)
Definition failing_adp : list Adp.record := [adp_rec "Jane Doe" CNone].

Definition failing_amazon : list Amazon.record := [amz_rec "Bob Stone" (CNum 25)].

(* ----------------------------------------------------------------- *)
(** ** Further definitions for the statements                         *)
(* ----------------------------------------------------------------- *)

(** Every character of a string passes a test. *)
Fixpoint all_chars (p : ascii -> bool) (s : string) : bool :=
  match s with
  | EmptyString => true
  | String c s' => p c && all_chars p s'
  end.

(** Two tokens count as the same word for [_token_matches]. *)
Definition tokens_related (a b : string) : bool := contains a b || contains b a.

(** [x is None] on a cell. *)
Definition is_None (c : cell) : bool :=
  match c with CNone => true | _ => false end.

(** No source-B record reaches the threshold against the source-A record. *)
Definition below_threshold (amazon_df : list Amazon.record) (a : Adp.record) : bool :=
  forallb (fun b => negb (Qgeb (_overlap_score (Adp.adp_name a) (Amazon.amz_name b))
                               THRESHOLD))
          amazon_df.

(** The inputs on which a script has no minutes to cite: the source-A
    minutes are [None] throughout, and a record is left without source-B
    minutes, because a source-A record finds no match or because a
    source-B record has none. *)
Definition no_minutes_to_cite (adp_df : list Adp.record)
           (amazon_df : list Amazon.record) : bool :=
  forallb (fun a => is_None (Adp.adp_break_minutes a)) adp_df
  && (existsb (below_threshold amazon_df) adp_df
      || existsb (fun b => isna (Amazon.amz_break_minutes b)) amazon_df).

(** The labels of the frame [run_analysis] returns. *)
Definition result_columns : list string :=
  (matched_columns
   ++ ["diff_minutes"; "severity"; "direction"; "needs_action"; "_sort";
       "conversation_script"])%list.

(** The classifier run a second time on the frame it returned. *)
Definition classify_again (df : DataFrame) : M ref :=
  r <- new_frame df ;;
  r <- calculate_discrepancies r ;;
  calculate_discrepancies r.

(* ----------------------------------------------------------------- *)
(** ** The dashboard (app.py): metric cards                           *)
(* ----------------------------------------------------------------- *)

(** The double quote. *)
Definition dq : string := String (ascii_of_nat 34) EmptyString.

Definition string_of_nat (n : nat) : string := string_of_Z (Z.of_nat n).

(** [df["severity"].value_counts().get(k, 0)]: the rows of severity [k]. *)
Definition counts_get (df : DataFrame) (k : string) : nat :=
  List.length (filter (fun r => opt_eqb (severity r) k) (rows df)).

(** [int(df["needs_action"].sum())]: the rows whose flag is true; a
    missing flag is skipped. *)
Definition needs (df : DataFrame) : nat :=
  List.length
    (filter (fun r => match needs_action r with Some flag => flag | None => false end)
            (rows df)).

(** The list [cards] of [render_metrics]. *)
Definition cards (df : DataFrame) : list (string * nat * string) :=
  [("total", List.length (rows df), "Total Employees");
   ("action", needs df, "Need Action");
   ("major", counts_get df "Major", "Major");
   ("mod", counts_get df "Moderate", "Moderate");
   ("minor", counts_get df "Minor", "Minor");
   ("missing", counts_get df "Missing Entry", "Missing Entry");
   ("match", counts_get df "Match", "Match")].

(** One iteration of the loop over the cards. *)
Definition add_card (html : string) (card : string * nat * string) : string :=
  let '(key, val, lbl) := card in
  html ++ "<div class=" ++ dq ++ "metric-card c-" ++ key ++ dq ++ ">"
       ++ "<div class=" ++ dq ++ "val" ++ dq ++ ">" ++ string_of_nat val
       ++ "</div><div class=" ++ dq ++ "lbl" ++ dq ++ ">" ++ lbl ++ "</div></div>".

(** [render_metrics]: the markup handed to [st.markdown]; a frame without
    the two columns read raises [KeyError]. *)
Definition render_metrics (df : DataFrame) : outcome string :=
  if has_column df "severity" && has_column df "needs_action"
  then Ok (fold_left add_card (cards df)
                     ("<div class=" ++ dq ++ "metric-row" ++ dq ++ ">")
           ++ "</div>")
  else Raise KeyError.

(* ----------------------------------------------------------------- *)
(** ** The dashboard (app.py): station detection                      *)
(* ----------------------------------------------------------------- *)

Definition KNOWN_STATIONS : list string := ["DFH1"; "DVB8"].

(** [str.upper()] maps some characters out of the range of [ascii], and
    one character to two: its result is kept as a list of code points. *)
Definition code_points (s : string) : list N := map N_of_ascii (list_ascii_of_string s).

(** The upper case of one character: the letters a to z and the accented
    lower-case letters (224 to 254, the division sign 247 apart) move down
    by 32, the sharp s (223) gives SS, the micro sign (181) the Greek
    capital mu and the y with diaeresis (255) its capital (376). *)
Definition upper_char (c : ascii) : list N :=
  let n := N_of_ascii c in
  if (97 <=? n)%N && (n <=? 122)%N then [(n - 32)%N]
  else if (n =? 181)%N then [924%N]
  else if (n =? 223)%N then [83%N; 83%N]
  else if (n =? 255)%N then [376%N]
  else if (224 <=? n)%N && (n <=? 254)%N && negb (n =? 247)%N then [(n - 32)%N]
  else [n].

Definition upper (s : string) : list N := flat_map upper_char (list_ascii_of_string s).

Fixpoint starts_with (a b : list N) : bool :=
  match a, b with
  | [], _ => true
  | _ :: _, [] => false
  | x :: a', y :: b' => (x =? y)%N && starts_with a' b'
  end.

(** [a in b] on lists of code points. *)
Fixpoint occurs (a b : list N) : bool :=
  starts_with a b ||
  match b with
  | [] => false
  | _ :: b' => occurs a b'
  end.

Definition detect_station (adp_name amz_name : string) : string :=
  let combined := upper (adp_name ++ " " ++ amz_name) in
  match find (fun s => occurs (code_points s) combined) KNOWN_STATIONS with
  | Some s => s
  | None => EmptyString
  end.

(** The station part of [render_sidebar]; an upload that is not there is
    [None], an uploaded file is given by its name. *)
Definition auto_station (adp_file amazon_file : option string) : string :=
  match adp_file, amazon_file with
  | Some adp_name, Some amz_name => detect_station adp_name amz_name
  | _, _ => EmptyString
  end.

Definition station_options (auto_station : string) : list string :=
  (KNOWN_STATIONS
   ++ (if existsb (String.eqb auto_station) KNOWN_STATIONS then [] else [auto_station]))%list.

(** [l.index(x)], for an [x] that is in [l]. *)
Fixpoint index (x : string) (l : list string) : nat :=
  match l with
  | [] => O
  | y :: l' => if String.eqb x y then O else S (index x l')
  end.

Definition default_idx (auto_station : string) : nat :=
  if existsb (String.eqb auto_station) (station_options auto_station)
  then index auto_station (station_options auto_station)
  else O.

Local Open Scope Q_scope.

(* ================================================================= *)
(** * Properties                                                      *)
(* ================================================================= *)

(** ** Evaluations *)

Example tokens_john_smith :
  _name_tokens "John Smith" = ["john"; "smith"].
Proof. reflexivity. Qed.

Example tokens_initials_dropped :
  _name_tokens "  Mary-Ann  O Neil, J. " = ["mary"; "ann"; "neil"].
Proof. reflexivity. Qed.

Example tokens_camel_case :
  _name_tokens "deShawnMcCoy" = ["de"; "shawn"; "mc"; "coy"].
Proof. reflexivity. Qed.

Example round_examples :
  py_round (2 # 3) 2 = 67 # 100 /\ py_round (1 # 8) 2 = 3 # 25 /\
  py_round (- (21 # 20)) 1 = - (1) /\
  format_0f (5 # 2) = "2" /\ format_0f (- (2 # 5)) = "-0" /\
  format_0f (37 # 2) = "18".
Proof. repeat split; reflexivity. Qed.

(** Scenarios 2 and 3 of the description: 20 against 19 minutes, and 20
    against 30. *)
Example classify_scenarios :
  let r2 := classify [] (paired_record (adp_rec "A B" (CNum 20)) (amz_rec "A B" (CNum 19)) 1) in
  let r3 := classify [] (paired_record (adp_rec "A B" (CNum 20)) (amz_rec "A B" (CNum 30)) 1) in
  (diff_minutes r2, severity r2, direction r2, needs_action r2)
  = (CNum (- (1)), Some "Match", Some "Match", Some false) /\
  (diff_minutes r3, severity r3, direction r3, needs_action r3)
  = (CNum 10, Some "Moderate", Some "Amazon > ADP", Some true).
Proof. split; reflexivity. Qed.


(** ** Comparisons *)

Lemma Qgtb_lt (x y : Q) : Qgtb x y = true <-> y < x.
Proof.
  unfold Qgtb. rewrite Qlt_alt, <- (Qcompare_antisym x y).
  destruct (Qcompare x y); simpl; split; congruence.
Qed.

Lemma Qgtb_le (x y : Q) : Qgtb x y = false <-> x <= y.
Proof.
  unfold Qgtb. rewrite Qle_alt.
  destruct (Qcompare x y); split; congruence.
Qed.

Lemma Qleb_le (x y : Q) : Qleb x y = true <-> x <= y.
Proof.
  unfold Qleb. rewrite Qle_alt.
  destruct (Qcompare x y); split; congruence.
Qed.

Lemma Qleb_gt (x y : Q) : Qleb x y = false <-> y < x.
Proof.
  unfold Qleb. rewrite Qlt_alt, <- (Qcompare_antisym x y).
  destruct (Qcompare x y); simpl; split; congruence.
Qed.

Lemma Qgeb_le (x y : Q) : Qgeb x y = true <-> y <= x.
Proof. apply Qleb_le. Qed.

(** ** The best match *)

(** [first_max] returns a position of the list, the value there is the
    largest, and every earlier value is strictly smaller. *)
Lemma first_max_spec (l : list Q) (i : nat) (m : Q) :
  first_max l = Some (i, m) ->
  nth_error l i = Some m /\
  (forall j y, nth_error l j = Some y -> y <= m) /\
  (forall j y, (j < i)%nat -> nth_error l j = Some y -> y < m).
Proof.
  revert i m. induction l as [|x l IH]; intros i m H; simpl in H.
  - discriminate.
  - destruct (first_max l) as [[i' m']|] eqn:E.
    + destruct (IH i' m' eq_refl) as (Hn & Hmax & Hfirst).
      destruct (Qgtb m' x) eqn:G; inversion H; subst; clear H.
      * apply Qgtb_lt in G. repeat split.
        -- exact Hn.
        -- intros [|j] y Hy; simpl in Hy.
           ++ inversion Hy; subst. lra.
           ++ eauto.
        -- intros [|j] y Hj Hy; simpl in Hy.
           ++ inversion Hy; subst. exact G.
           ++ apply (Hfirst j); [lia | exact Hy].
      * apply Qgtb_le in G. repeat split.
        -- intros [|j] y Hy; simpl in Hy.
           ++ inversion Hy; subst. lra.
           ++ specialize (Hmax j y Hy). lra.
        -- intros j y Hj. lia.
    + inversion H; subst; clear H. repeat split.
      * intros [|j] y Hy; simpl in Hy.
        -- inversion Hy; subst. lra.
        -- destruct l; [destruct j; discriminate | simpl in E].
           destruct (first_max l) as [[? ?]|]; [destruct (Qgtb _ _)|]; discriminate.
      * intros j y Hj. lia.
Qed.

Lemma first_max_none (l : list Q) : first_max l = None -> l = [].
Proof.
  destruct l as [|x l]; [reflexivity | simpl].
  destruct (first_max l) as [[? ?]|]; [destruct (Qgtb _ _)|]; discriminate.
Qed.

(** The inner loop of [match_employees], started anywhere, in terms of
    [first_max]: the running best is replaced exactly when the list holds a
    strictly larger score, and then by the first largest one. *)
Lemma best_loop (a : Adp.record) (l : list Amazon.record) :
  forall (k : nat) (bs : Q) (bi : option nat),
    fold_left (best_step a) (combine (seq k (List.length l)) l) (bs, bi) =
    match first_max (scores a l) with
    | Some (i, m) => if Qgtb m bs then (m, Some (k + i)%nat) else (bs, bi)
    | None => (bs, bi)
    end.
Proof.
  induction l as [|b l IH]; intros k bs bi; simpl.
  - reflexivity.
  - set (x := _overlap_score (Adp.adp_name a) (Amazon.amz_name b)).
    destruct (Qgtb x bs) eqn:G1; rewrite IH; fold (scores a l);
      destruct (first_max (scores a l)) as [[i m]|] eqn:E.
    + destruct (Qgtb m x) eqn:G2.
      * apply Qgtb_lt in G1, G2.
        assert (G3 : Qgtb m bs = true) by (apply Qgtb_lt; lra).
        rewrite G3. do 2 f_equal. lia.
      * rewrite G1. do 2 f_equal. lia.
    + rewrite G1. do 2 f_equal. lia.
    + destruct (Qgtb m x) eqn:G2.
      * destruct (Qgtb m bs) eqn:G3; [do 2 f_equal; lia | reflexivity].
      * rewrite G1. apply Qgtb_le in G1, G2.
        assert (G3 : Qgtb m bs = false) by (apply Qgtb_le; lra).
        rewrite G3. reflexivity.
    + rewrite G1. reflexivity.
Qed.

Lemma best_match_first_max (a : Adp.record) (amazon_df : list Amazon.record) :
  best_match a amazon_df =
  match first_max (scores a amazon_df) with
  | Some (i, m) => if Qgtb m 0 then (m, Some i) else (0, None)
  | None => (0, None)
  end.
Proof. unfold best_match, iterrows. rewrite best_loop. reflexivity. Qed.

(** ** The two loops of [match_employees] *)

Lemma threshold_pos (m : Q) : m <= 0 -> Qgeb m THRESHOLD = false.
Proof.
  intros H. apply Qleb_gt. unfold THRESHOLD. 
  assert (0 < 33 # 100) by reflexivity. lra.
Qed.

Lemma scores_length a l : List.length (scores a l) = List.length l.
Proof. apply length_map. Qed.

(** One iteration of the first loop never raises: it claims the selected
    record, if any, and appends the emitted record. *)
Lemma match_step_selected (amazon_df : list Amazon.record)
      (used_amz : list nat) (matches : list Row) (a : Adp.record) :
  match_step amazon_df (used_amz, matches) a =
  Ok (match selected a amazon_df with
      | Some (i, _, _) => set_add i used_amz
      | None => used_amz
      end,
      (matches ++ [emitted stored_score amazon_df a])%list).
Proof.
  unfold match_step, selected, emitted, selected.
  rewrite best_match_first_max.
  destruct (first_max (scores a amazon_df)) as [[i m]|] eqn:E; [|reflexivity].
  destruct (Qgtb m 0) eqn:G.
  - destruct (Qgeb m THRESHOLD) eqn:T; [|reflexivity].
    destruct (nth_error amazon_df i) as [b|] eqn:N; [reflexivity|].
    exfalso. apply first_max_spec in E. destruct E as (Hn & _).
    apply nth_error_None in N.
    assert (i < List.length (scores a amazon_df))%nat
      by (apply nth_error_Some; congruence).
    rewrite scores_length in *. lia.
  - apply Qgtb_le in G. rewrite (threshold_pos m G). reflexivity.
Qed.

Lemma first_loop (amazon_df : list Amazon.record) (adp_df : list Adp.record) :
  forall used_amz matches,
    try_fold (match_step amazon_df) adp_df (used_amz, matches) =
    Ok (used_by amazon_df adp_df used_amz,
        (matches ++ map (emitted stored_score amazon_df) adp_df)%list).
Proof.
  induction adp_df as [|a adp_df IH]; intros used_amz matches; cbn [try_fold map].
  - rewrite app_nil_r. reflexivity.
  - rewrite match_step_selected, IH. unfold used_by. simpl.
    rewrite <- app_assoc. reflexivity.
Qed.

Lemma second_loop (used_amz : list nat) (its : list (nat * Amazon.record)) :
  forall matches,
    fold_left (unmatched_step used_amz) its matches =
    (matches ++ map (fun it => amz_only_record (snd it))
                    (filter (fun it => negb (set_mem (fst it) used_amz)) its))%list.
Proof.
  induction its as [|[i b] its IH]; intros matches; simpl.
  - rewrite app_nil_r. reflexivity.
  - rewrite IH. destruct (set_mem i used_amz); simpl.
    + reflexivity.
    + rewrite <- app_assoc. reflexivity.
Qed.

Lemma set_mem_add (i j : nat) (s : list nat) :
  set_mem i (set_add j s) = Nat.eqb i j || set_mem i s.
Proof.
  unfold set_add, set_mem. destruct (existsb (Nat.eqb j) s) eqn:E; simpl.
  - destruct (Nat.eqb_spec i j) as [->|]; simpl; [|reflexivity].
    exact E.
  - reflexivity.
Qed.

Lemma set_mem_used_by (amazon_df : list Amazon.record) (adp_df : list Adp.record) (i : nat) :
  forall used_amz,
    set_mem i (used_by amazon_df adp_df used_amz) =
    set_mem i used_amz || claimed adp_df amazon_df i.
Proof.
  unfold used_by, claimed.
  induction adp_df as [|a adp_df IH]; intros used_amz; simpl.
  - rewrite orb_false_r. reflexivity.
  - rewrite IH. destruct (selected a amazon_df) as [[[j b] s]|].
    + rewrite set_mem_add. 
      destruct (Nat.eqb i j), (set_mem i used_amz); reflexivity.
    + reflexivity.
Qed.

(** The list [matches] is the one the description gives, with the score
    rounded to two decimals when it is stored; no input makes the loops
    raise. *)
Lemma match_records_described (adp_df : list Adp.record) (amazon_df : list Amazon.record) :
  match_records adp_df amazon_df =
  Ok (matcher_described stored_score adp_df amazon_df).
Proof.
  unfold match_records, matcher_described.
  rewrite first_loop, second_loop. simpl. do 3 f_equal.
  apply filter_ext. intros [i b]. simpl.
  rewrite set_mem_used_by. reflexivity.
Qed.

Lemma match_employees_alloc (adp_df : list Adp.record) (amazon_df : list Amazon.record)
      (s : Store) :
  match_employees adp_df amazon_df s =
  Ok (List.length s,
      (s ++ [DataFrame_of_records (matcher_described stored_score adp_df amazon_df)])%list).
Proof.
  unfold match_employees, bind, lift. rewrite match_records_described.
  reflexivity.
Qed.

Lemma nth_error_fresh {X : Type} (s : list X) (x : X) :
  nth_error (s ++ [x]) (List.length s) = Some x.
Proof. rewrite nth_error_app2, Nat.sub_diag by lia. reflexivity. Qed.

Lemma match_employees_frame (adp_df : list Adp.record) (amazon_df : list Amazon.record) :
  frame_of (match_employees adp_df amazon_df) =
  Ok (DataFrame_of_records (matcher_described stored_score adp_df amazon_df)).
Proof. unfold frame_of. rewrite match_employees_alloc. reflexivity. Qed.

(** ** Frames built from records *)

Lemma write_column_map {X : Type} (set : Row -> X -> Row) (h : Row -> X) (l : list Row) :
  write_column set l (map h l) = map (fun r => set r (h r)) l.
Proof. induction l as [|r l IH]; simpl; [reflexivity | now rewrite IH]. Qed.

Lemma infer_floats_map (col : list cell) :
  infer_floats col = map (float_if_any col) col.
Proof.
  unfold infer_floats, float_if_any.
  destruct (existsb is_float col); [reflexivity | now rewrite map_id].
Qed.

(** The rows of [pd.DataFrame(records)] are the records, one by one, with
    the two columns of minutes as type inference leaves them. *)
Lemma rows_DataFrame_of_records (records : list Row) :
  rows (DataFrame_of_records records) = map (as_stored records) records.
Proof.
  destruct records as [|r0 l]; [reflexivity|].
  unfold DataFrame_of_records. cbn [rows].
  set (records := r0 :: l).
  rewrite (infer_floats_map (map adp_break_minutes records)), map_map.
  rewrite (write_column_map set_adp_break_minutes
             (fun r => float_if_any (map adp_break_minutes records) (adp_break_minutes r))).
  rewrite infer_floats_map, !map_map. cbn [set_adp_break_minutes amz_break_minutes].
  rewrite <- (map_map (fun r => set_adp_break_minutes r
             (float_if_any (map adp_break_minutes records) (adp_break_minutes r)))
             (fun r => float_if_any (map amz_break_minutes records) (amz_break_minutes r))).
  rewrite write_column_map, map_map. reflexivity.
Qed.

(** ** Claims on the matcher *)

(** The selected record, in words: it sits at position [i], carries the
    score [s], [s] reaches the threshold, no record scores higher and every
    earlier record scores strictly lower. *)
Lemma selected_iff (a : Adp.record) (amazon_df : list Amazon.record)
      (i : nat) (b : Amazon.record) (s : Q) :
  selected a amazon_df = Some (i, b, s) <->
  nth_error amazon_df i = Some b /\
  s = _overlap_score (Adp.adp_name a) (Amazon.amz_name b) /\
  THRESHOLD <= s /\
  (forall j b', nth_error amazon_df j = Some b' ->
                _overlap_score (Adp.adp_name a) (Amazon.amz_name b') <= s) /\
  (forall j b', (j < i)%nat -> nth_error amazon_df j = Some b' ->
                _overlap_score (Adp.adp_name a) (Amazon.amz_name b') < s).
Proof.
  unfold selected. split.
  - destruct (first_max (scores a amazon_df)) as [[i0 m]|] eqn:E; [|discriminate].
    destruct (Qgeb m THRESHOLD) eqn:T; [|discriminate].
    destruct (nth_error amazon_df i0) as [b0|] eqn:N; [|discriminate].
    intros H; inversion H; subst; clear H.
    apply first_max_spec in E. destruct E as (Hn & Hmax & Hfirst).
    unfold scores in *. rewrite nth_error_map, N in Hn. simpl in Hn.
    inversion Hn as [Hs]. rewrite ?Hs.
    split; [exact N|]. split; [reflexivity|].
    split; [apply Qgeb_le in T; exact T|]. split.
    + intros j b' Hj. apply (Hmax j). now rewrite nth_error_map, Hj.
    + intros j b' Hlt Hj. apply (Hfirst j); [exact Hlt|].
      now rewrite nth_error_map, Hj.
  - intros (Hn & Hs & Ht & Hmax & Hfirst).
    destruct (first_max (scores a amazon_df)) as [[i0 m]|] eqn:E.
    + apply first_max_spec in E. destruct E as (Hn0 & Hmax0 & Hfirst0).
      assert (Hsi : nth_error (scores a amazon_df) i = Some s).
      { unfold scores. rewrite nth_error_map, Hn. simpl. now rewrite Hs. }
      assert (i0 = i).
      { destruct (Nat.lt_trichotomy i0 i) as [L|[L|L]]; [|exact L|].
        - exfalso. unfold scores in Hn0. rewrite nth_error_map in Hn0.
          destruct (nth_error amazon_df i0) as [b0|] eqn:N0; [|discriminate].
          simpl in Hn0. inversion Hn0 as [Hm].
          pose proof (Hfirst i0 b0 L N0) as H1. rewrite Hm in H1.
          pose proof (Hmax0 i s Hsi). lra.
        - exfalso. pose proof (Hfirst0 i s L Hsi) as H1.
          unfold scores in Hn0. rewrite nth_error_map in Hn0.
          destruct (nth_error amazon_df i0) as [b0|] eqn:N0; [|discriminate].
          simpl in Hn0. inversion Hn0 as [Hm].
          pose proof (Hmax i0 b0 N0) as H2. rewrite Hm in H2. lra. }
      subst i0. rewrite Hsi in Hn0. inversion Hn0; subst m.
      apply Qgeb_le in Ht. rewrite Ht, Hn. reflexivity.
    + apply first_max_none in E. destruct amazon_df; [|discriminate].
      destruct i; discriminate.
Qed.

Lemma round_half_even_floor (x : Q) : (Qfloor x <= round_half_even x)%Z.
Proof.
  unfold round_half_even.
  destruct (Qcompare (x - inject_Z (Qfloor x)) (1 # 2)); [destruct (Z.even _)| |]; lia.
Qed.

(** Rounding to two decimals does not take a score below the threshold. *)
Lemma stored_score_threshold (s : Q) : THRESHOLD <= s -> THRESHOLD <= stored_score s.
Proof.
  intros H. unfold stored_score, py_round. rewrite Qred_correct.
  change (pow10 2) with 100%positive.
  set (z := round_half_even (s * inject_Z 100)).
  assert (Hz : (33 <= z)%Z).
  { unfold z. etransitivity; [|apply round_half_even_floor].
    change 33%Z with (Qfloor (inject_Z 33)).
    apply Qfloor_resp_le. unfold THRESHOLD in H.
    assert (E : inject_Z 33 == (33 # 100) * inject_Z 100) by reflexivity.
    rewrite E. apply Qmult_le_compat_r; [exact H | discriminate]. }
  unfold THRESHOLD, Qle. simpl. lia.
Qed.

Lemma selected_In (a : Adp.record) (amazon_df : list Amazon.record) i b s :
  selected a amazon_df = Some (i, b, s) -> In b amazon_df /\ THRESHOLD <= s.
Proof.
  intros H. apply selected_iff in H. destruct H as (Hn & _ & Ht & _).
  split; [eapply nth_error_In; exact Hn | exact Ht].
Qed.

(** Where a described record comes from. *)
Lemma matcher_described_In (adp_df : list Adp.record) (amazon_df : list Amazon.record)
      (r : Row) :
  In r (matcher_described stored_score adp_df amazon_df) ->
  (exists a b s, In a adp_df /\ In b amazon_df /\ THRESHOLD <= s /\
                 r = paired_record a b (stored_score s)) \/
  (exists a, In a adp_df /\ r = adp_only_record a) \/
  (exists b, In b amazon_df /\ r = amz_only_record b).
Proof.
  unfold matcher_described. rewrite in_app_iff, !in_map_iff.
  intros [(a & Hr & Ha) | ([i b] & Hr & Hb)].
  - unfold emitted in Hr.
    destruct (selected a amazon_df) as [[[i b] s]|] eqn:E.
    + apply selected_In in E. destruct E as (Hb & Ht).
      left. exists a, b, s. auto.
    + right; left. exists a. auto.
  - right; right. exists b. split; [|now symmetry].
    apply filter_In in Hb. destruct Hb as (Hb & _).
    unfold iterrows in Hb. now apply in_combine_r in Hb.
Qed.

(** C2: the matcher is the greedy, non-exclusive matcher of its description,
    except that the score of a pair is stored rounded to two decimals.
    For every two inputs the loops return (they never raise) the records
    emitted for the source-A records in their order, followed by one
    source-B-only record per unclaimed source-B record; the record selected
    for a source-A record is the first one of highest score among all
    source-B records, provided that score is at least 0.33; and one source-B
    record can be paired with two source-A records. *)
Theorem match_employees_greedy :
  (forall adp_df amazon_df,
      match_records adp_df amazon_df
      = Ok (matcher_described (fun s => py_round s 2) adp_df amazon_df) /\
      frame_of (match_employees adp_df amazon_df)
      = Ok (DataFrame_of_records
              (matcher_described (fun s => py_round s 2) adp_df amazon_df))) /\
  (forall a amazon_df i b s,
      selected a amazon_df = Some (i, b, s) <->
      nth_error amazon_df i = Some b /\
      s = _overlap_score (Adp.adp_name a) (Amazon.amz_name b) /\
      (33 # 100) <= s /\
      (forall j b', nth_error amazon_df j = Some b' ->
                    _overlap_score (Adp.adp_name a) (Amazon.amz_name b') <= s) /\
      (forall j b', (j < i)%nat -> nth_error amazon_df j = Some b' ->
                    _overlap_score (Adp.adp_name a) (Amazon.amz_name b') < s)) /\
  (forall a b s,
      match_score (paired_record a b s) = s /\
      match_score (adp_only_record a) = 0 /\ amz_name (adp_only_record a) = None /\
      match_score (amz_only_record b) = 0 /\ adp_name (amz_only_record b) = None) /\
  (let a1 := adp_rec "John Smith" (CNum 20) in
   let a2 := adp_rec "Jon Smith" (CNum 40) in
   let b := amz_rec "JohnSmith99" (CNum 30) in
   match_records [a1; a2] [b]
   = Ok [paired_record a1 b 1; paired_record a2 b (1 # 2)]).
Proof.
  split; [|split; [|split]].
  - intros adp_df amazon_df. split.
    + apply match_records_described.
    + apply match_employees_frame.
  - intros. apply selected_iff.
  - intros. repeat split.
  - vm_compute. reflexivity.
Qed.

(** C2, as worded: the pair would carry the best score itself.  The names
    below score 2/3, and the pair is emitted with 0.67. *)
Lemma stored_score_is_rounded :
  let a := adp_rec "Ann Lee Ray" (CNum 20) in
  let b := amz_rec "Ann Lee" (CNum 20) in
  selected a [b] = Some (0%nat, b, 2 # 3) /\
  match_records [a] [b] = Ok [paired_record a b (67 # 100)] /\
  ~ (67 # 100 == 2 # 3) /\
  match_records [a] [b] <> Ok (matcher_described (fun s => s) [a] [b]).
Proof.
  cbv zeta. split; [vm_compute; reflexivity|].
  split; [vm_compute; reflexivity|].
  split; [intros H; vm_compute in H; discriminate|].
  intros H. vm_compute in H. discriminate.
Qed.

(** C8: every record of the frame returned by the matcher has a score that
    is 0 or at least 0.33; the rounded score of a pair never lies strictly
    between the two. *)
Theorem match_score_zero_or_threshold (adp_df : list Adp.record)
        (amazon_df : list Amazon.record) :
  exists df,
    frame_of (match_employees adp_df amazon_df) = Ok df /\
    forall r, In r (rows df) ->
              (match_score r = 0 \/ (33 # 100) <= match_score r) /\
              ~ (0 < match_score r /\ match_score r < (33 # 100)).
Proof.
  eexists. split; [apply match_employees_frame|].
  intros r Hr. rewrite rows_DataFrame_of_records in Hr.
  apply in_map_iff in Hr. destruct Hr as (r0 & <- & Hr0).
  change (match_score (as_stored _ r0)) with (match_score r0).
  apply matcher_described_In in Hr0.
  assert (H : match_score r0 = 0 \/ (33 # 100) <= match_score r0).
  { destruct Hr0 as [(a & b & s & _ & _ & Ht & ->) | [(a & _ & ->) | (b & _ & ->)]].
    - right. apply stored_score_threshold in Ht. exact Ht.
    - left. reflexivity.
    - left. reflexivity. }
  split; [exact H|].
  destruct H as [H | H]; [rewrite H|]; intros [H1 H2]; lra.
Qed.

(** C9: every record of the frame returned by the matcher has a side: its
    source-A name is the name of a source-A record, or its source-B name is
    the name of a source-B record; the two names are never both absent. *)
Theorem match_employees_has_a_side (adp_df : list Adp.record)
        (amazon_df : list Amazon.record) :
  exists df,
    frame_of (match_employees adp_df amazon_df) = Ok df /\
    forall r, In r (rows df) ->
              ((exists a, In a adp_df /\ adp_name r = Some (Adp.adp_name a)) \/
               (exists b, In b amazon_df /\ amz_name r = Some (Amazon.amz_name b))) /\
              ~ (adp_name r = None /\ amz_name r = None).
Proof.
  eexists. split; [apply match_employees_frame|].
  intros r Hr. rewrite rows_DataFrame_of_records in Hr.
  apply in_map_iff in Hr. destruct Hr as (r0 & <- & Hr0).
  change (adp_name (as_stored _ r0)) with (adp_name r0).
  change (amz_name (as_stored _ r0)) with (amz_name r0).
  apply matcher_described_In in Hr0.
  destruct Hr0 as [(a & b & s & Ha & _ & _ & ->) | [(a & Ha & ->) | (b & Hb & ->)]];
    simpl; (split; [eauto | intros [H1 H2]; discriminate]).
Qed.

(** ** The store *)

Lemma get_frame_ok (s : Store) (r : ref) (df : DataFrame) :
  nth_error s r = Some df -> get_frame r s = Ok (df, s).
Proof. intros H. unfold get_frame. now rewrite H. Qed.

Lemma update_frame_ok (s : Store) (r : ref) (df : DataFrame) (f : DataFrame -> DataFrame) :
  nth_error s r = Some df -> update_frame r f s = Ok (tt, replace_nth r (f df) s).
Proof. intros H. unfold update_frame. now rewrite H. Qed.

Lemma nth_error_replace_same {X : Type} (s : list X) (r : nat) (x y : X) :
  nth_error s r = Some y -> nth_error (replace_nth r x s) r = Some x.
Proof.
  revert r. induction s as [|z s IH]; intros [|r] H; simpl in *;
    try discriminate; auto.
Qed.

Lemma nth_error_replace_other {X : Type} (s : list X) (r k : nat) (x : X) :
  k <> r -> nth_error (replace_nth r x s) k = nth_error s k.
Proof.
  revert r k. induction s as [|z s IH]; intros [|r] [|k] H; simpl;
    try reflexivity; try congruence.
  apply IH. congruence.
Qed.

Lemma replace_nth_twice {X : Type} (s : list X) (r : nat) (x y : X) :
  replace_nth r y (replace_nth r x s) = replace_nth r y s.
Proof.
  revert r. induction s as [|z s IH]; intros [|r]; simpl; try reflexivity.
  now rewrite IH.
Qed.

Lemma replace_nth_fresh {X : Type} (s : list X) (x y : X) :
  replace_nth (List.length s) y (s ++ [x]) = (s ++ [y])%list.
Proof. induction s as [|z s IH]; simpl; [reflexivity | now rewrite IH]. Qed.

(** ** calculate_discrepancies *)

(** After the first assignment the difference is a number whenever both
    minutes are, so [_severity] does not raise. *)
Lemma _severity_ok (col : list cell) (r : Row) :
  let r1 := set_diff_minutes r (float_if_any col (_diff r)) in
  _severity r1 = Ok (severity_value r1).
Proof.
  unfold severity_value, _severity, _diff, float_if_any. simpl.
  destruct (amz_break_minutes r) as [| |a], (adp_break_minutes r) as [| |b];
    simpl; try reflexivity.
  destruct (existsb is_float col); simpl;
    repeat (match goal with |- context [Qleb ?x ?y] => destruct (Qleb x y) end);
    reflexivity.
Qed.

Lemma try_map_ok {X Y : Type} (f : X -> outcome Y) (g : X -> Y) (l : list X) :
  (forall x, In x l -> f x = Ok (g x)) -> try_map f l = Ok (map g l).
Proof.
  induction l as [|x l IH]; intros H; simpl; [reflexivity|].
  rewrite (H x (or_introl eq_refl)), IH; [reflexivity|].
  intros y Hy. apply H. now right.
Qed.

(** [calculate_discrepancies] never raises on a frame of the store: it
    rewrites that frame in place and returns the reference it was given. *)
Lemma calculate_discrepancies_in_place (s : Store) (r : ref) (df : DataFrame) :
  nth_error s r = Some df ->
  calculate_discrepancies r s = Ok (r, replace_nth r (classified df) s).
Proof.
  intros H. unfold calculate_discrepancies, bind.
  rewrite (get_frame_ok _ _ _ H), (update_frame_ok _ _ _ _ H).
  set (df1 := set_column "diff_minutes" set_diff_minutes _ df).
  assert (H1 : nth_error (replace_nth r df1 s) r = Some df1)
    by (eapply nth_error_replace_same; exact H).
  rewrite (get_frame_ok _ _ _ H1).
  assert (R1 : rows df1 =
               map (fun r0 => set_diff_minutes r0
                                (float_if_any (map _diff (rows df)) (_diff r0)))
                   (rows df)).
  { unfold df1, set_column. cbn [rows].
    rewrite infer_floats_map, map_map, write_column_map. reflexivity. }
  assert (S1 : try_map _severity (rows df1) = Ok (map severity_value (rows df1))).
  { apply try_map_ok. intros x Hx. rewrite R1 in Hx.
    apply in_map_iff in Hx. destruct Hx as (r0 & <- & _). apply _severity_ok. }
  unfold lift. rewrite S1, (update_frame_ok _ _ _ _ H1), replace_nth_twice.
  set (df2 := set_column "severity" set_severity _ df1).
  assert (H2 : nth_error (replace_nth r df2 s) r = Some df2)
    by (eapply nth_error_replace_same; exact H).
  rewrite (get_frame_ok _ _ _ H2), (update_frame_ok _ _ _ _ H2), replace_nth_twice.
  set (df3 := set_column "direction" set_direction _ df2).
  assert (H3 : nth_error (replace_nth r df3 s) r = Some df3)
    by (eapply nth_error_replace_same; exact H).
  rewrite (get_frame_ok _ _ _ H3), (update_frame_ok _ _ _ _ H3), replace_nth_twice.
  unfold ret. do 3 f_equal.
  unfold classified, set_column. f_equal.
  unfold df3, df2, set_column. cbn [rows].
  rewrite !write_column_map, R1, !map_map. reflexivity.
Qed.

Lemma classify_frame_ok (df : DataFrame) :
  frame_of (classify_frame df) = Ok (classified df).
Proof.
  unfold frame_of, classify_frame, bind, new_frame. cbn [List.length app].
  rewrite (calculate_discrepancies_in_place [df] 0%nat df eq_refl). reflexivity.
Qed.

Lemma Forall2_map_same {X Y : Type} (P : X -> Y -> Prop) (f : X -> Y) (l : list X) :
  (forall x, P x (f x)) -> Forall2 P l (map f l).
Proof. intros H. induction l; simpl; constructor; auto. Qed.

Ltac cases_Qleb :=
  repeat match goal with
         | |- context [Qleb ?x ?y] =>
             let E := fresh "E" in
             destruct (Qleb x y) eqn:E;
             [apply Qleb_le in E | apply Qleb_gt in E]
         | |- context [Qgtb ?x ?y] =>
             let E := fresh "E" in
             destruct (Qgtb x y) eqn:E;
             [apply Qgtb_lt in E | apply Qgtb_le in E]
         end.

(** A row with both minutes present. *)
Lemma classify_present (col : list cell) (m : Row) (a b : Q) :
  adp_break_minutes m = CNum a ->
  amz_break_minutes m = CNum b ->
  let x := py_round (float64 (b - a)) 1 in
  let d := classify col m in
  diff_minutes d = CNum x /\
  (Qabs x <= 1 -> severity d = Some "Match" /\ direction d = Some "Match") /\
  (1 < Qabs x -> Qabs x <= 5 -> severity d = Some "Minor") /\
  (5 < Qabs x -> Qabs x <= 15 -> severity d = Some "Moderate") /\
  (15 < Qabs x -> severity d = Some "Major") /\
  (1 < Qabs x -> 0 < x -> direction d = Some "Amazon > ADP") /\
  (1 < Qabs x -> x < 0 -> direction d = Some "ADP > Amazon").
Proof.
  intros HA HB x d. subst d.
  unfold classify, severity_value, _severity, _direction, _diff, float_if_any.
  cbn [set_diff_minutes set_severity set_direction set_needs_action
       amz_break_minutes adp_break_minutes diff_minutes severity direction].
  rewrite HA, HB. fold x.
  assert (F : (if existsb is_float col then as_float (CNum x) else CNum x) = CNum x)
    by (destruct (existsb is_float col); reflexivity).
  rewrite F. cbn [isna orb].
  repeat split; intros; cases_Qleb; cbn; try reflexivity; try (exfalso; lra).
Qed.

(** A row with minutes absent on some side. *)
Lemma classify_absent (col : list cell) (m : Row) :
  isna (adp_break_minutes m) = true \/ isna (amz_break_minutes m) = true ->
  let d := classify col m in
  isna (diff_minutes d) = true /\
  severity d = Some "Missing Entry" /\
  direction d = Some "Warning Missing" /\
  needs_action d = Some true.
Proof.
  intros H d. subst d.
  unfold classify, severity_value, _severity, _direction, _diff, float_if_any.
  cbn [set_diff_minutes set_severity set_direction set_needs_action
       amz_break_minutes adp_break_minutes diff_minutes severity direction
       needs_action].
  destruct (adp_break_minutes m) as [| |a], (amz_break_minutes m) as [| |b];
    cbn in H |- *;
    try (destruct H; discriminate);
    destruct (existsb is_float col); cbn; repeat split.
Qed.

(** Leaves the fields the matcher wrote as they are. *)
Lemma classify_frame_fields (col : list cell) (m : Row) :
  let d := classify col m in
  adp_name d = adp_name m /\ adp_break_start d = adp_break_start m /\
  adp_break_end d = adp_break_end m /\ adp_break_minutes d = adp_break_minutes m /\
  amz_name d = amz_name m /\ transporter_id d = transporter_id m /\
  amz_break_start d = amz_break_start m /\ amz_break_end d = amz_break_end m /\
  amz_break_minutes d = amz_break_minutes m /\ match_score d = match_score m /\
  _sort d = _sort m /\ conversation_script d = conversation_script m.
Proof. repeat split. Qed.

Lemma classify_severity (col : list cell) (m : Row) :
  let d := classify col m in
  exists s, severity d = Some s /\
            In s ["Match"; "Minor"; "Moderate"; "Major"; "Missing Entry"] /\
            direction d = Some (_direction d) /\
            needs_action d = Some (isin (Some s) action_severities) /\
            (s = "Missing Entry" <->
             isna (adp_break_minutes m) = true \/ isna (amz_break_minutes m) = true).
Proof.
  intros d. subst d.
  assert (N : forall s, severity (classify col m) = Some s ->
                        needs_action (classify col m)
                        = Some (isin (Some s) action_severities)).
  { intros s S.
    change (needs_action (classify col m))
      with (Some (isin (severity (classify col m)) action_severities)).
    now rewrite S. }
  destruct (isna (adp_break_minutes m) || isna (amz_break_minutes m)) eqn:A.
  - apply orb_true_iff in A.
    destruct (classify_absent col m A) as (_ & S & _).
    exists "Missing Entry". split; [exact S|]. split; [simpl; auto 6|].
    split; [reflexivity|]. split; [apply N, S|]. tauto.
  - apply orb_false_iff in A. destruct A as [A1 A2].
    destruct (adp_break_minutes m) as [| |a] eqn:HA; try discriminate.
    destruct (amz_break_minutes m) as [| |b] eqn:HB; try discriminate.
    destruct (classify_present col m a b HA HB) as (_ & H1 & H2 & H3 & H4 & _).
    set (x := py_round (float64 (b - a)) 1) in *.
    assert (C : exists s, severity (classify col m) = Some s /\
                          In s ["Match"; "Minor"; "Moderate"; "Major"]).
    { destruct (Qlt_le_dec 1 (Qabs x)) as [C1|C1];
        [|exists "Match"; split; [apply H1, C1 | simpl; auto]].
      destruct (Qlt_le_dec 5 (Qabs x)) as [C2|C2];
        [|exists "Minor"; split; [apply H2; assumption | simpl; auto]].
      destruct (Qlt_le_dec 15 (Qabs x)) as [C3|C3];
        [|exists "Moderate"; split; [apply H3; assumption | simpl; auto]].
      exists "Major"; split; [apply H4; assumption | simpl; auto]. }
    destruct C as (s & S & Hs). exists s.
    split; [exact S|]. split; [simpl in *; tauto|].
    split; [reflexivity|]. split; [apply N, S|].
    split.
    + intros ->. simpl in Hs. repeat destruct Hs as [Hs|Hs]; try discriminate; tauto.
    + intros [E|E]; discriminate.
Qed.

(** ** The order of the sort *)

Lemma ascii_compare_lt_trans (x y z : ascii) :
  Ascii.compare x y = Lt -> Ascii.compare y z = Lt -> Ascii.compare x z = Lt.
Proof.
  unfold Ascii.compare. rewrite !N.compare_lt_iff. intros. 
  eapply N.lt_trans; eassumption.
Qed.

Lemma string_compare_lt_trans (a b c : string) :
  String.compare a b = Lt -> String.compare b c = Lt -> String.compare a c = Lt.
Proof.
  revert b c. induction a as [|x a IH]; intros [|y b] [|z c]; simpl;
    try discriminate; try reflexivity.
  destruct (Ascii.compare x y) eqn:E1; try discriminate;
    destruct (Ascii.compare y z) eqn:E2; try discriminate; intros H1 H2.
  - apply Ascii.compare_eq_iff in E1, E2. subst.
    rewrite (proj2 (N.compare_eq_iff _ _) eq_refl : Ascii.compare z z = Eq).
    eapply IH; eassumption.
  - apply Ascii.compare_eq_iff in E1. subst. now rewrite E2.
  - apply Ascii.compare_eq_iff in E2. subst. now rewrite E1.
  - now rewrite (ascii_compare_lt_trans _ _ _ E1 E2).
Qed.

Lemma string_leb_trans (a b c : string) :
  String.leb a b = true -> String.leb b c = true -> String.leb a c = true.
Proof.
  unfold String.leb.
  destruct (String.compare a b) eqn:E1; try discriminate;
    destruct (String.compare b c) eqn:E2; try discriminate; intros _ _.
  - apply String.compare_eq_iff in E1. subst. now rewrite E2.
  - apply String.compare_eq_iff in E1. subst. now rewrite E2.
  - apply String.compare_eq_iff in E2. subst. now rewrite E1.
  - now rewrite (string_compare_lt_trans _ _ _ E1 E2).
Qed.

Lemma string_leb_refl (a : string) : String.leb a a = true.
Proof. destruct (String.leb_total a a); assumption. Qed.

Lemma name_le_trans (x y z : option string) :
  name_le x y -> name_le y z -> name_le x z.
Proof.
  unfold name_le. destruct x, y, z; simpl; try discriminate; try reflexivity.
  apply string_leb_trans.
Qed.

Lemma name_le_total (x y : option string) : name_le x y \/ name_le y x.
Proof. unfold name_le. destruct x, y; simpl; auto. apply String.leb_total. Qed.

Lemma key_leb_iff (r1 r2 : Row) (k1 k2 : nat) :
  _sort r1 = Some k1 -> _sort r2 = Some k2 ->
  (key_leb r1 r2 = true <->
   (k1 < k2)%nat \/ (k1 = k2 /\ name_le (adp_name r1) (adp_name r2))).
Proof.
  intros H1 H2. unfold key_leb, name_le. rewrite H1, H2. simpl.
  rewrite orb_true_iff, andb_true_iff, Nat.ltb_lt, Nat.leb_le.
  split.
  - intros [H | [H H']]; [now left|].
    destruct (Nat.eq_dec k1 k2); [right; auto | left; lia].
  - intros [H | [H H']]; [now left | right; split; [lia | exact H']].
Qed.

(** The two sort columns as one key: missing values count as the largest. *)
Lemma key_leb_total (r1 r2 : Row) : key_leb r1 r2 = true \/ key_leb r2 r1 = true.
Proof.
  unfold key_leb.
  destruct (name_le_total (adp_name r1) (adp_name r2)) as [N|N];
    unfold name_le in N; rewrite N;
    destruct (_sort r1) as [k1|], (_sort r2) as [k2|]; simpl; auto;
    rewrite ?andb_true_r;
    destruct (Nat.ltb_spec k1 k2), (Nat.ltb_spec k2 k1),
             (Nat.leb_spec k1 k2), (Nat.leb_spec k2 k1); simpl; auto; lia.
Qed.

Lemma key_leb_trans (r1 r2 r3 : Row) :
  key_leb r1 r2 = true -> key_leb r2 r3 = true -> key_leb r1 r3 = true.
Proof.
  unfold key_leb.
  pose proof (name_le_trans (adp_name r1) (adp_name r2) (adp_name r3)) as T.
  unfold name_le in T.
  destruct (na_last_leb String.leb (adp_name r1) (adp_name r2));
    destruct (na_last_leb String.leb (adp_name r2) (adp_name r3));
    destruct (na_last_leb String.leb (adp_name r1) (adp_name r3));
    try (specialize (T eq_refl eq_refl); discriminate);
    destruct (_sort r1) as [k1|], (_sort r2) as [k2|], (_sort r3) as [k3|]; simpl;
    try discriminate; try reflexivity;
    rewrite ?andb_true_r, ?andb_false_r, ?orb_false_r;
    try discriminate;
    rewrite ?orb_true_iff, ?Nat.ltb_lt, ?Nat.leb_le; intros; lia.
Qed.

(** ** The stable sort *)

Lemma insert_row_perm (r : Row) (l : list Row) : Permutation (insert_row r l) (r :: l).
Proof.
  induction l as [|y l IH]; simpl; [apply Permutation_refl|].
  destruct (key_leb r y); [apply Permutation_refl|].
  etransitivity; [apply perm_skip, IH | apply perm_swap].
Qed.

Lemma stable_sort_perm (l : list Row) : Permutation (stable_sort l) l.
Proof.
  induction l as [|r l IH]; simpl; [constructor|].
  etransitivity; [apply insert_row_perm | now apply perm_skip].
Qed.

Lemma insert_row_sorted (r : Row) (l : list Row) :
  StronglySorted key_le l -> StronglySorted key_le (insert_row r l).
Proof.
  induction l as [|y l IH]; intros H; simpl.
  - constructor; constructor.
  - inversion H as [|? ? Hs Hall]; subst.
    destruct (key_leb r y) eqn:E.
    + constructor; [exact H|]. constructor; [exact E|].
      eapply Forall_impl; [|exact Hall].
      intros z Hz. eapply key_leb_trans; eassumption.
    + constructor; [apply IH, Hs|].
      apply (Permutation_Forall (Permutation_sym (insert_row_perm r l))).
      constructor; [|exact Hall].
      destruct (key_leb_total r y) as [C|C]; [congruence | exact C].
Qed.

Lemma stable_sort_sorted (l : list Row) : StronglySorted key_le (stable_sort l).
Proof.
  induction l as [|r l IH]; simpl; [constructor | now apply insert_row_sorted].
Qed.

(** Rows that share their key keep their relative order. *)
Lemma insert_row_filter (p : Row -> bool) (r : Row) (l : list Row) :
  (forall y, p r = true -> p y = true -> key_leb r y = true) ->
  filter p (insert_row r l) = filter p (r :: l).
Proof.
  intros Hp. induction l as [|y l IH]; simpl; [reflexivity|].
  destruct (key_leb r y) eqn:E; simpl; [reflexivity|].
  simpl in IH. rewrite IH.
  destruct (p r) eqn:Pr, (p y) eqn:Py; try reflexivity.
  rewrite (Hp y eq_refl Py) in E. discriminate.
Qed.

Lemma stable_sort_stable (p : Row -> bool) (l : list Row) :
  (forall x y, p x = true -> p y = true -> key_leb x y = true) ->
  filter p (stable_sort l) = filter p l.
Proof.
  intros Hp. induction l as [|r l IH]; simpl; [reflexivity|].
  rewrite insert_row_filter by (intros; now apply Hp).
  simpl. now rewrite IH.
Qed.

(** ** run_analysis, step by step *)

Lemma try_map_value {X Y : Type} (f : X -> outcome Y) (g : X -> Y) (l : list X) (ys : list Y) :
  (forall x y, f x = Ok y -> g x = y) ->
  try_map f l = Ok ys -> ys = map g l.
Proof.
  intros Hg. revert ys. induction l as [|x l IH]; intros ys H; simpl in H.
  - now inversion H.
  - destruct (f x) as [y|] eqn:E; [|discriminate].
    destruct (try_map f l) as [ys'|]; [|discriminate].
    inversion H; subst. simpl. rewrite (Hg x y E), <- (IH ys' eq_refl). reflexivity.
Qed.

Lemma script_value_ok (r : Row) (s : string) : build_script r = Ok s -> script_value r = s.
Proof. unfold script_value. now intros ->. Qed.

(** The whole of [run_analysis] from any store: two frames are created, the
    merged one, which receives the columns of the classifier and the sort
    key, and the sorted one, which receives the scripts. *)
Lemma run_analysis_steps (adp_df : list Adp.record) (amazon_df : list Amazon.record)
      (s : Store) :
  run_analysis adp_df amazon_df s =
  match sort_values (sort_input adp_df amazon_df) with
  | Raise e => Raise e
  | Ok sorted =>
      match try_map build_script (rows sorted) with
      | Raise e => Raise e
      | Ok scripts =>
          Ok (S (List.length s),
              (s ++ [sort_input adp_df amazon_df;
                     set_column "conversation_script" set_conversation_script
                                scripts sorted])%list)
      end
  end.
Proof.
  unfold run_analysis, bind. rewrite match_employees_alloc.
  set (merged := DataFrame_of_records _).
  rewrite (calculate_discrepancies_in_place _ _ _ (nth_error_fresh s merged)).
  rewrite replace_nth_fresh.
  rewrite (get_frame_ok _ _ _ (nth_error_fresh s (classified merged))).
  rewrite (update_frame_ok _ _ _ _ (nth_error_fresh s (classified merged))).
  rewrite replace_nth_fresh. fold (keyed (classified merged)).
  set (K := keyed (classified merged)).
  rewrite (get_frame_ok _ _ _ (nth_error_fresh s K)).
  unfold lift, sort_input. fold merged. fold K.
  destruct (sort_values K) as [sorted|e]; [|reflexivity].
  unfold new_frame.
  rewrite (get_frame_ok _ _ _ (nth_error_fresh (s ++ [K]) sorted)).
  destruct (try_map build_script (rows sorted)) as [scripts|e]; [|reflexivity].
  rewrite (update_frame_ok _ _ _ _ (nth_error_fresh (s ++ [K]) sorted)).
  rewrite replace_nth_fresh. unfold ret.
  rewrite length_app, <- app_assoc. simpl. rewrite Nat.add_1_r. reflexivity.
Qed.

Lemma run_steps (adp_df : list Adp.record) (amazon_df : list Amazon.record) :
  run adp_df amazon_df =
  match sort_values (sort_input adp_df amazon_df) with
  | Raise e => Raise e
  | Ok sorted =>
      match try_map build_script (rows sorted) with
      | Raise e => Raise e
      | Ok scripts =>
          Ok (set_column "conversation_script" set_conversation_script scripts sorted)
      end
  end.
Proof.
  unfold run, frame_of. rewrite run_analysis_steps.
  destruct (sort_values _) as [sorted|e]; [|reflexivity].
  destruct (try_map _ _) as [scripts|e]; reflexivity.
Qed.

Lemma classify_matches_frame (adp_df : list Adp.record) (amazon_df : list Amazon.record) :
  frame_of (classify_matches adp_df amazon_df) =
  Ok (classified (DataFrame_of_records
                    (matcher_described stored_score adp_df amazon_df))).
Proof.
  unfold frame_of, classify_matches, bind. rewrite match_employees_alloc.
  rewrite (calculate_discrepancies_in_place _ _ _ (nth_error_fresh [] _)).
  reflexivity.
Qed.

Lemma rows_keyed (df : DataFrame) : rows (keyed df) = map with_sort_key (rows df).
Proof.
  unfold keyed, set_column. cbn [rows].
  rewrite (write_column_map set__sort (fun r => sev_rank (severity r))). reflexivity.
Qed.

(** The rows [run_analysis] returns: the keyed rows, sorted, each with its
    script. *)
Lemma run_rows (adp_df : list Adp.record) (amazon_df : list Amazon.record)
      (df : DataFrame) :
  run adp_df amazon_df = Ok df ->
  rows df = map with_script (stable_sort (rows (sort_input adp_df amazon_df))).
Proof.
  rewrite run_steps. unfold sort_values.
  destruct (has_column _ "_sort" && has_column _ "adp_name"); [|discriminate].
  cbn [rows].
  destruct (try_map build_script _) as [scripts|e] eqn:E; [|discriminate].
  intros H. inversion H; subst; clear H. unfold set_column. cbn [rows].
  rewrite (try_map_value _ script_value _ _ script_value_ok E).
  apply (write_column_map set_conversation_script script_value).
Qed.

Lemma insert_row_map (f : Row -> Row) (r : Row) (l : list Row) :
  (forall x y, key_leb (f x) (f y) = key_leb x y) ->
  insert_row (f r) (map f l) = map f (insert_row r l).
Proof.
  intros Hf. induction l as [|y l IH]; simpl; [reflexivity|].
  rewrite Hf. destruct (key_leb r y); simpl; [reflexivity | now rewrite IH].
Qed.

Lemma stable_sort_map (f : Row -> Row) (l : list Row) :
  (forall x y, key_leb (f x) (f y) = key_leb x y) ->
  stable_sort (map f l) = map f (stable_sort l).
Proof.
  intros Hf. induction l as [|r l IH]; simpl; [reflexivity|].
  now rewrite IH, insert_row_map.
Qed.

(** ** Claims on the order of the output *)

Lemma StronglySorted_weaken {X : Type} (R R' : X -> X -> Prop) (l : list X) :
  (forall x y, In x l -> In y l -> R x y -> R' x y) ->
  StronglySorted R l -> StronglySorted R' l.
Proof.
  intros HR H. induction H as [|x l Hs IH Hall]; constructor.
  - apply IH. intros a b Ha Hb. apply HR; now right.
  - rewrite Forall_forall in *. intros y Hy.
    apply HR; [now left | now right | now apply Hall].
Qed.

Lemma same_name_le (x y n : option string) :
  same_name x n = true -> same_name y n = true -> name_le x y.
Proof.
  unfold same_name, name_le.
  destruct x as [a|], y as [b|], n as [c|]; simpl; try discriminate; try reflexivity.
  rewrite !String.eqb_eq. intros -> ->. apply string_leb_refl.
Qed.

Lemma sev_rank_table :
  sev_rank (Some "Major") = 0%nat /\ sev_rank (Some "Moderate") = 1%nat /\
  sev_rank (Some "Minor") = 2%nat /\ sev_rank (Some "Missing Entry") = 3%nat /\
  sev_rank (Some "Match") = 4%nat /\ sev_rank None = 5%nat /\
  forall s, ~ In s ["Major"; "Moderate"; "Minor"; "Missing Entry"; "Match"] ->
            sev_rank (Some s) = 5%nat.
Proof.
  repeat (split; [reflexivity|]).
  intros s H. unfold sev_rank, sev_order, dict_get.
  repeat match goal with
         | |- context [String.eqb s ?k] =>
             destruct (String.eqb_spec s k) as [->|_];
             [exfalso; apply H; simpl; tauto|]
         end.
  reflexivity.
Qed.

(** C1, as the code has it: whenever the pipeline returns a frame, its rows
    are the classified rows of the matcher, each with its sort key and its
    script, rearranged by a stable sort on (severity rank, source-A name):
    ranks ascend (Major 0, Moderate 1, Minor 2, Missing Entry 3, Match 4,
    anything else 5), within a rank the source-A names ascend and the rows
    without a source-A name come last, and the rows that share rank and
    source-A name keep the order the matcher gave them. *)
Theorem run_analysis_sorted (adp_df : list Adp.record) (amazon_df : list Amazon.record)
        (df : DataFrame) :
  run adp_df amazon_df = Ok df ->
  (exists merged,
      frame_of (classify_matches adp_df amazon_df) = Ok merged /\
      let pre := map with_script (map with_sort_key (rows merged)) in
      Permutation (rows df) pre /\
      StronglySorted sorted_order (rows df) /\
      (forall k n, filter (has_key k n) (rows df) = filter (has_key k n) pre)) /\
  (forall r, In r (rows df) -> _sort r = Some (sev_rank (severity r))) /\
  sev_rank (Some "Major") = 0%nat /\ sev_rank (Some "Moderate") = 1%nat /\
  sev_rank (Some "Minor") = 2%nat /\ sev_rank (Some "Missing Entry") = 3%nat /\
  sev_rank (Some "Match") = 4%nat /\ sev_rank None = 5%nat /\
  (forall s, ~ In s ["Major"; "Moderate"; "Minor"; "Missing Entry"; "Match"] ->
             sev_rank (Some s) = 5%nat).
Proof.
  intros H. apply run_rows in H.
  unfold sort_input in H. rewrite rows_keyed in H.
  set (merged := classified _) in H.
  rewrite <- stable_sort_map in H by reflexivity.
  set (pre := map with_script (map with_sort_key (rows merged))) in *.
  assert (K : forall r, In r pre -> _sort r = Some (sev_rank (severity r))).
  { intros r Hr. unfold pre in Hr. rewrite map_map in Hr.
    apply in_map_iff in Hr. destruct Hr as (r0 & <- & _). reflexivity. }
  assert (K' : forall r, In r (rows df) -> _sort r = Some (sev_rank (severity r))).
  { intros r Hr. apply K. rewrite H in Hr.
    eapply Permutation_in; [apply stable_sort_perm | exact Hr]. }
  split; [|split; [exact K' | apply sev_rank_table]].
  exists merged. split; [apply classify_matches_frame|].
  cbv zeta. fold pre. split; [|split].
  - rewrite H. apply stable_sort_perm.
  - apply (StronglySorted_weaken key_le).
    + intros x y Hx Hy Hle. unfold key_le in Hle.
      apply (key_leb_iff x y _ _ (K' x Hx) (K' y Hy)) in Hle. exact Hle.
    + rewrite H. apply stable_sort_sorted.
  - intros k n.
    set (p := fun r => has_key k n r &&
                       match _sort r with
                       | Some j => Nat.eqb j (sev_rank (severity r))
                       | None => false
                       end).
    assert (P : forall l, (forall r, In r l -> _sort r = Some (sev_rank (severity r))) ->
                          filter (has_key k n) l = filter p l).
    { intros l Hl. apply filter_ext_in. intros r Hr. unfold p.
      rewrite (Hl r Hr), Nat.eqb_refl, andb_true_r. reflexivity. }
    rewrite (P _ K'), (P _ K), H. apply stable_sort_stable.
    intros x y Hx Hy. unfold p in Hx, Hy.
    apply andb_true_iff in Hx, Hy. destruct Hx as [Hx Sx], Hy as [Hy Sy].
    destruct (_sort x) as [jx|] eqn:Ex; [|discriminate].
    destruct (_sort y) as [jy|] eqn:Ey; [|discriminate].
    apply Nat.eqb_eq in Sx, Sy. subst jx jy.
    apply (key_leb_iff x y _ _ Ex Ey).
    unfold has_key in Hx, Hy. apply andb_true_iff in Hx, Hy.
    destruct Hx as [Rx Nx], Hy as [Ry Ny]. apply Nat.eqb_eq in Rx, Ry.
    right. split; [congruence | eapply same_name_le; eassumption].
Qed.

Lemma run_sample : run sample_adp sample_amazon = Ok sample_output.
Proof. vm_compute. reflexivity. Qed.

(** The theorem at the sample frames. *)
Lemma run_analysis_sorted_sample :
  run sample_adp sample_amazon = Ok sample_output /\
  StronglySorted sorted_order (rows sample_output) /\
  Forall (fun r => _sort r = Some (sev_rank (severity r))) (rows sample_output).
Proof.
  split; [exact run_sample|].
  destruct (run_analysis_sorted sample_adp sample_amazon sample_output run_sample)
    as ((merged & _ & _ & S & _) & K & _).
  split; [exact S | apply Forall_forall; exact K].
Defined.

(** C1, as worded: the names would ascend within a severity, a record
    without source-A name taking part with its source-B name.  Two
    unmatched records, both of severity Missing Entry: the source-A record
    "Zed Young" comes before the source-B record "Al Bo". *)
Lemma display_names_not_sorted :
  exists df,
    run [adp_rec "Zed Young" (CNum 18)] [amz_rec "Al Bo" (CNum 25)] = Ok df /\
    map display_name (rows df) = [Some "Zed Young"; Some "Al Bo"] /\
    map severity (rows df) = [Some "Missing Entry"; Some "Missing Entry"] /\
    ~ StronglySorted described_order (rows df).
Proof.
  eexists. split; [vm_compute; reflexivity|].
  split; [reflexivity|]. split; [reflexivity|].
  intros H. inversion H as [|r l Hs Hall]; subst.
  inversion Hall as [|r' l' Hd _]; subst.
  destruct Hd as [Hd | [_ Hd]].
  - vm_compute in Hd. lia.
  - vm_compute in Hd. discriminate.
Qed.

(** ** Claims on the classifier *)



(** ** The float64 nearest to a number *)











Lemma Qabs_gt_1 (x : Q) : 1 < Qabs x -> 0 < x \/ x < 0.
Proof.
  intros H. destruct (Qlt_le_dec 0 x) as [P|P]; [now left|].
  right. rewrite (Qabs_neg x P) in H. lra.
Qed.

Lemma classify_delta_iff (col : list cell) (m : Row) :
  let d := classify col m in
  (isna (diff_minutes d) = true <-> severity d = Some "Missing Entry") /\
  direction d <> Some "-".
Proof.
  intros d. subst d.
  destruct (isna (adp_break_minutes m) || isna (amz_break_minutes m)) eqn:A.
  - apply orb_true_iff in A.
    destruct (classify_absent col m A) as (D & S & Dir & _).
    rewrite D, S, Dir. split; [tauto | discriminate].
  - apply orb_false_iff in A. destruct A as [A1 A2].
    destruct (classify_severity col m) as (s & S & _ & _ & _ & M).
    destruct (adp_break_minutes m) as [| |a] eqn:HA; try discriminate.
    destruct (amz_break_minutes m) as [| |b] eqn:HB; try discriminate.
    destruct (classify_present col m a b HA HB) as (D & H1 & _ & _ & _ & H6 & H7).
    set (x := py_round (float64 (b - a)) 1) in *.
    rewrite D, S. split.
    + split; [discriminate|]. intros E. inversion E; subst s.
      destruct (proj1 M eq_refl); discriminate.
    + destruct (Qlt_le_dec 1 (Qabs x)) as [C|C].
      * destruct (Qabs_gt_1 x C) as [P|P];
          [rewrite (H6 C P) | rewrite (H7 C P)]; discriminate.
      * destruct (H1 C) as [_ Dir]. rewrite Dir. discriminate.
Qed.

(** The subtraction is the one of float64: 4.95 less 20 is the float64
    next below -15.05 and rounds to -15.1, a Major difference, where the
    exact difference rounds to -15; 1.25 less 0.2 gives 1.1, a Minor
    difference, and not 1. *)
Example classify_float_difference :
  let r1 := classify [] (paired_record (adp_rec "A B" (CNum 20))
                                       (amz_rec "A B" (CNum (float64 (495 # 100)))) 1) in
  let r2 := classify [] (paired_record (adp_rec "A B" (CNum (float64 (2 # 10))))
                                       (amz_rec "A B" (CNum (125 # 100))) 1) in
  (diff_minutes r1, severity r1, direction r1)
  = (CNum (- (151 # 10)), Some "Major", Some "ADP > Amazon") /\
  py_round (float64 (495 # 100) - 20) 1 = - (15) /\
  (diff_minutes r2, severity r2, direction r2)
  = (CNum (11 # 10), Some "Minor", Some "Amazon > ADP").
Proof. repeat split; vm_compute; reflexivity. Qed.


(** C10: in every row the classifier produces the difference is absent
    exactly when the severity is Missing Entry, and the direction is never
    "-"; the same holds of every row the pipeline returns. *)
Theorem delta_absent_iff_missing :
  (forall df, exists df',
      frame_of (classify_frame df) = Ok df' /\
      forall d, In d (rows df') ->
                (isna (diff_minutes d) = true <-> severity d = Some "Missing Entry") /\
                direction d <> Some "-") /\
  (forall adp_df amazon_df df,
      run adp_df amazon_df = Ok df ->
      forall d, In d (rows df) ->
                (isna (diff_minutes d) = true <-> severity d = Some "Missing Entry") /\
                direction d <> Some "-").
Proof.
  split.
  - intros df. eexists. split; [apply classify_frame_ok|].
    intros d Hd. unfold classified in Hd. cbn [rows] in Hd.
    apply in_map_iff in Hd. destruct Hd as (m & <- & _).
    apply classify_delta_iff.
  - intros adp_df amazon_df df H d Hd. apply run_rows in H.
    rewrite H in Hd. apply in_map_iff in Hd. destruct Hd as (r & <- & Hr).
    apply (Permutation_in _ (stable_sort_perm _)) in Hr.
    unfold sort_input in Hr. rewrite rows_keyed in Hr.
    apply in_map_iff in Hr. destruct Hr as (r0 & <- & Hr0).
    unfold classified in Hr0. cbn [rows] in Hr0.
    apply in_map_iff in Hr0. destruct Hr0 as (m & <- & _).
    apply (classify_delta_iff _ m).
Qed.

(** The second part at the sample frames. *)
Lemma delta_absent_iff_missing_sample :
  run sample_adp sample_amazon = Ok sample_output /\
  Forall (fun d => (isna (diff_minutes d) = true <-> severity d = Some "Missing Entry") /\
                   direction d <> Some "-")
         (rows sample_output).
Proof.
  split; [exact run_sample|]. apply Forall_forall.
  exact (proj2 delta_absent_iff_missing sample_adp sample_amazon sample_output run_sample).
Defined.

(** ** Claims on the store *)



(** ** Claims on the scripts *)

(** Matching and classification return on all frames. *)
Lemma classify_matches_total (adp_df : list Adp.record) (amazon_df : list Amazon.record) :
  exists merged, frame_of (classify_matches adp_df amazon_df) = Ok merged.
Proof. eexists. apply classify_matches_frame. Qed.

(** C7 fails on the code: matching and classification return on all
    frames, but the pipeline raises [TypeError] in [build_script] when the
    only source-A record has no break minutes and no match; with a second
    source-A record that has minutes the same record gets a script that
    cites "nan" minutes. *)
Theorem run_raises_without_minutes :
  (forall adp_df amazon_df,
      exists merged, frame_of (classify_matches adp_df amazon_df) = Ok merged) /\
  run failing_adp failing_amazon = Raise TypeError /\
  (exists df,
      run (adp_rec "Bob Stone" (CNum 21) :: failing_adp) failing_amazon = Ok df /\
      map conversation_script (rows df)
      = [Some (script_discrepancy "Bob Stone" "Amazon app" "4" "ADP" "25" "21");
         Some (script_no_amazon "Jane Doe" "nan")]).
Proof.
  split; [exact classify_matches_total|].
  split; [vm_compute; reflexivity|].
  eexists. split; vm_compute; reflexivity.
Qed.

(** C4 fails on the code: the record the classifier produces for a source-A
    record without minutes and without match has severity Missing Entry and
    no minutes on either side, and [build_script] raises on it. *)
Theorem build_script_raises_without_minutes :
  exists merged d,
    frame_of (classify_matches failing_adp failing_amazon) = Ok merged /\
    nth_error (rows merged) 0 = Some d /\
    adp_name d = Some "Jane Doe" /\
    severity d = Some "Missing Entry" /\
    isna (amz_break_minutes d) = true /\
    adp_break_minutes d = CNone /\
    build_script d = Raise TypeError.
Proof.
  do 2 eexists. split; [vm_compute; reflexivity|].
  repeat split.
Qed.

(** The script depends on the names, the severity, the two minutes and the
    difference only, and has the four forms of [build_script]. *)
Lemma build_script_templates :
  (forall r1 r2,
      adp_name r1 = adp_name r2 -> amz_name r1 = amz_name r2 ->
      severity r1 = severity r2 ->
      amz_break_minutes r1 = amz_break_minutes r2 ->
      adp_break_minutes r1 = adp_break_minutes r2 ->
      diff_minutes r1 = diff_minutes r2 ->
      build_script r1 = build_script r2) /\
  (forall r, severity r = Some "Match" -> build_script r = Ok script_match) /\
  (forall r v,
      severity r = Some "Missing Entry" ->
      isna (amz_break_minutes r) = true -> adp_break_minutes r = CNum v ->
      build_script r
      = Ok (script_no_amazon (or_else (adp_name r) (or_else (amz_name r) "Employee"))
                             (format_0f v))) /\
  (forall r v,
      severity r = Some "Missing Entry" -> amz_break_minutes r = CNum v ->
      build_script r
      = Ok (script_no_adp (or_else (adp_name r) (or_else (amz_name r) "Employee"))
                          (format_0f v))) /\
  (forall r s a b d,
      severity r = Some s -> In s ["Minor"; "Moderate"; "Major"] ->
      amz_break_minutes r = CNum a -> adp_break_minutes r = CNum b ->
      diff_minutes r = CNum d ->
      let emp := or_else (adp_name r) (or_else (amz_name r) "Employee") in
      (0 < d ->
       build_script r
       = Ok (script_discrepancy emp "Amazon app" (format_0f (Qabs d)) "ADP"
                                (format_0f a) (format_0f b))) /\
      (d <= 0 ->
       build_script r
       = Ok (script_discrepancy emp "ADP" (format_0f (Qabs d)) "Amazon app"
                                (format_0f a) (format_0f b)))).
Proof.
  split; [|split; [|split; [|split]]].
  - intros r1 r2 H1 H2 H3 H4 H5 H6. unfold build_script.
    now rewrite H1, H2, H3, H4, H5, H6.
  - intros r H. unfold build_script. now rewrite H.
  - intros r v S A B. unfold build_script. rewrite S, A, B. reflexivity.
  - intros r v S A. unfold build_script. rewrite S, A. reflexivity.
  - intros r s a b d S Hs A B D emp. unfold build_script. rewrite S, A, B, D.
    fold emp.
    assert (E : String.eqb s "Match" = false /\ String.eqb s "Missing Entry" = false).
    { simpl in Hs. destruct Hs as [<-|[<-|[<-|[]]]]; split; reflexivity. }
    destruct E as [E1 E2]. rewrite E1, E2. cbn [gt_zero cell_abs fmt_0f try].
    split; intros P.
    + apply Qgtb_lt in P. rewrite P. reflexivity.
    + apply Qgtb_le in P. rewrite P. reflexivity.
Qed.

(** ** The first scenario *)

(** C6, as the code has it: both names have the tokens "john" and "smith"
    (the camel-case boundary splits "JohnSmith99"), both source-A tokens
    match, the score is 2 / max(2, 2) = 1, which reaches 0.33, and the
    matcher pairs any two records with these names. *)
Theorem scenario_john_smith :
  _name_tokens "John Smith" = ["john"; "smith"] /\
  _split_camelcase "JohnSmith99" = "John Smith99" /\
  _name_tokens "JohnSmith99" = ["john"; "smith"] /\
  _token_matches (_name_tokens "John Smith") (_name_tokens "JohnSmith99") = 2%nat /\
  Nat.max (List.length (_name_tokens "John Smith"))
          (List.length (_name_tokens "JohnSmith99")) = 2%nat /\
  _overlap_score "John Smith" "JohnSmith99" = 1 /\
  (33 # 100) <= _overlap_score "John Smith" "JohnSmith99" /\
  (forall s1 e1 m1 t s2 e2 m2,
      let a := Adp.Build_record "John Smith" s1 e1 m1 in
      let b := Amazon.Build_record "JohnSmith99" t s2 e2 m2 in
      match_records [a] [b] = Ok [paired_record a b 1]).
Proof.
  repeat (split; [vm_compute; try reflexivity; discriminate|]).
  intros. rewrite match_records_described. vm_compute. reflexivity.
Qed.

(** C6, as worded: "JohnSmith99" would have the single token "johnsmith". *)
Lemma johnsmith99_has_two_tokens :
  ~ (forall t, In t (_name_tokens "JohnSmith99") <-> In t ["johnsmith"]) /\
  List.length (_name_tokens "JohnSmith99") <> 1%nat.
Proof.
  split.
  - intros H. destruct (proj1 (H "john")) as [E|[]].
    + vm_compute. now left.
    + discriminate.
  - vm_compute. discriminate.
Qed.

(** ** The tokenizer and the score *)

Lemma all_chars_app (p : ascii -> bool) (s1 s2 : string) :
  all_chars p (s1 ++ s2) = all_chars p s1 && all_chars p s2.
Proof.
  induction s1 as [|c s1 IH]; simpl; [reflexivity|].
  now rewrite IH, andb_assoc.
Qed.

Lemma all_chars_rev (p : ascii -> bool) (s : string) :
  all_chars p (string_rev s) = all_chars p s.
Proof.
  induction s as [|c s IH]; simpl; [reflexivity|].
  rewrite all_chars_app, IH. simpl. rewrite andb_true_r. apply andb_comm.
Qed.

Lemma all_chars_map (p : ascii -> bool) (f : ascii -> ascii) (s : string) :
  (forall c, p (f c) = true) -> all_chars p (string_map f s) = true.
Proof.
  intros H. induction s as [|c s IH]; simpl; [reflexivity|].
  now rewrite H, IH.
Qed.

(** [split] cuts at whitespace: a word has no whitespace, and its
    characters pass every test the characters of the text pass. *)
Lemma split_aux_words (p : ascii -> bool) (s : string) :
  forall cur w,
    all_chars p s = true ->
    all_chars (fun c => p c && negb (is_space c)) cur = true ->
    In w (split_aux s cur) ->
    all_chars (fun c => p c && negb (is_space c)) w = true.
Proof.
  induction s as [|c s IH]; intros cur w Hs Hcur Hw; simpl in Hw.
  - destruct cur; [destruct Hw|].
    destruct Hw as [<-|[]]. now rewrite all_chars_rev.
  - simpl in Hs. apply andb_true_iff in Hs. destruct Hs as [Hc Hs].
    destruct (is_space c) eqn:Sp.
    + destruct cur.
      * apply (IH EmptyString w Hs eq_refl Hw).
      * destruct Hw as [<-|Hw]; [now rewrite all_chars_rev|].
        apply (IH EmptyString w Hs eq_refl Hw).
    + apply (IH (String c cur) w Hs); [|exact Hw]. simpl. now rewrite Hc, Sp, Hcur.
Qed.

(** After the substitution and [lower], a character is a lower-case letter
    or whitespace. *)
Lemma lower_letter_or_space (c : ascii) :
  let c' := to_lower (if is_letter c || is_space c then c else " "%char) in
  is_lower c' || is_space c' = true.
Proof.
  destruct c as [[] [] [] [] [] [] [] []]; vm_compute; reflexivity.
Qed.

(** X2: every token of a name is a word of at least two lower-case letters
    a to z, and no token is listed twice. *)
Theorem name_tokens_wellformed (name : string) :
  NoDup (_name_tokens name) /\
  forall t, In t (_name_tokens name) ->
            (2 <= String.length t)%nat /\ all_chars is_lower t = true.
Proof.
  unfold _name_tokens, set_of. split; [apply NoDup_nodup|].
  intros t Ht. apply nodup_In, filter_In in Ht. destruct Ht as [Ht Hlen].
  split; [apply Nat.ltb_lt in Hlen; lia|].
  unfold split in Ht.
  apply (split_aux_words (fun c => is_lower c || is_space c)) in Ht.
  - clear -Ht. induction t as [|c t IH]; simpl in *; [reflexivity|].
    apply andb_true_iff in Ht. destruct Ht as [Hc Ht]. rewrite (IH Ht).
    destruct (is_lower c), (is_space c); simpl in *; congruence.
  - unfold lower, letters_only.
    generalize (_split_camelcase name). intros s.
    induction s as [|c s IH]; simpl; [reflexivity|].
    rewrite IH, andb_true_r. apply lower_letter_or_space.
  - reflexivity.
Qed.

Lemma _token_matches_le (ta tb : list string) :
  (_token_matches ta tb <= List.length ta)%nat.
Proof. unfold _token_matches. apply filter_length_le. Qed.

Lemma _token_matches_pos (ta tb : list string) :
  (0 < _token_matches ta tb)%nat <->
  exists a b, In a ta /\ In b tb /\ tokens_related a b = true.
Proof.
  unfold _token_matches, tokens_related. split.
  - intros H.
    destruct (filter _ ta) as [|a l] eqn:E; [simpl in H; lia|].
    assert (Ha : In a (filter (fun a => existsb (fun b => contains a b || contains b a) tb) ta))
      by (rewrite E; now left).
    apply filter_In in Ha. destruct Ha as [Ha Hex].
    apply existsb_exists in Hex. destruct Hex as (b & Hb & Hr).
    exists a, b. auto.
  - intros (a & b & Ha & Hb & Hr).
    assert (In a (filter (fun a => existsb (fun b => contains a b || contains b a) tb) ta)).
    { apply filter_In. split; [exact Ha|]. apply existsb_exists. eauto. }
    destruct (filter _ ta); [contradiction | simpl; lia].
Qed.

Lemma Qred_ratio (m M : nat) :
  (0 < M)%nat -> (m <= M)%nat ->
  (0 <= Qred (Z.of_nat m # Pos.of_nat M) <= 1)%Q /\
  ((0 < Qred (Z.of_nat m # Pos.of_nat M))%Q <-> (0 < m)%nat).
Proof.
  intros HM Hm.
  assert (P : Z.pos (Pos.of_nat M) = Z.of_nat M).
  { rewrite <- positive_nat_Z, Nat2Pos.id by lia. reflexivity. }
  rewrite !Qred_correct. unfold Qle, Qlt. simpl. rewrite ?P. 
  split; [split; lia | lia].
Qed.

Lemma _overlap_score_bounds (name_a name_b : string) :
  (0 <= _overlap_score name_a name_b <= 1)%Q.
Proof.
  unfold _overlap_score.
  destruct (_name_tokens name_a) as [|a ta]; [split; discriminate|].
  destruct (_name_tokens name_b) as [|b tb]; [split; discriminate|].
  apply Qred_ratio; [simpl; lia|].
  pose proof (_token_matches_le (a :: ta) (b :: tb)). lia.
Qed.

(** X3: the score of two names lies between 0 and 1, and it is positive
    exactly when some token of the first name and some token of the second
    are related, one occurring inside the other. *)
Theorem overlap_score_range (name_a name_b : string) :
  (0 <= _overlap_score name_a name_b <= 1)%Q /\
  ((0 < _overlap_score name_a name_b)%Q <->
   exists a b, In a (_name_tokens name_a) /\ In b (_name_tokens name_b) /\
               tokens_related a b = true).
Proof.
  unfold _overlap_score.
  destruct (_name_tokens name_a) as [|a ta] eqn:Ea.
  { split; [split; discriminate|]. split; [discriminate|].
    intros (x & _ & [] & _). }
  destruct (_name_tokens name_b) as [|b tb] eqn:Eb.
  { split; [split; discriminate|]. split; [discriminate|].
    intros (_ & y & _ & [] & _). }
  set (la := a :: ta). set (lb := b :: tb).
  assert (HM : (0 < Nat.max (List.length la) (List.length lb))%nat) by (simpl; lia).
  assert (Hm : (_token_matches la lb <= Nat.max (List.length la) (List.length lb))%nat).
  { pose proof (_token_matches_le la lb). lia. }
  destruct (Qred_ratio _ _ HM Hm) as [R P].
  split; [exact R|]. rewrite P. apply _token_matches_pos.
Qed.

(** ** Who gets paired *)

Lemma In_combine_seq {X : Type} (l : list X) (i k : nat) (x : X) :
  nth_error l i = Some x -> In ((k + i)%nat, x) (combine (seq k (List.length l)) l).
Proof.
  revert i k. induction l as [|y l IH]; intros [|i] k H; simpl in *;
    try discriminate.
  - inversion H; subst. left. f_equal. lia.
  - right. replace (k + S i)%nat with (S k + i)%nat by lia. now apply IH.
Qed.

Lemma In_iterrows {X : Type} (l : list X) (i : nat) (x : X) :
  nth_error l i = Some x -> In (i, x) (iterrows l).
Proof. intros H. apply (In_combine_seq l i 0 x H). Qed.

Lemma first_max_some (l : list Q) : l <> [] -> exists i m, first_max l = Some (i, m).
Proof.
  destruct (first_max l) as [[i m]|] eqn:E; [eauto|].
  intros H. apply first_max_none in E. contradiction.
Qed.

Lemma nth_error_scores (a : Adp.record) (amazon_df : list Amazon.record) (j : nat)
      (b : Amazon.record) :
  nth_error amazon_df j = Some b ->
  nth_error (scores a amazon_df) j
  = Some (_overlap_score (Adp.adp_name a) (Amazon.amz_name b)).
Proof. intros H. unfold scores. now rewrite nth_error_map, H. Qed.

Lemma selected_none (a : Adp.record) (amazon_df : list Amazon.record) :
  selected a amazon_df = None ->
  forall b, In b amazon_df ->
            (_overlap_score (Adp.adp_name a) (Amazon.amz_name b) < THRESHOLD)%Q.
Proof.
  intros H b Hb. apply In_nth_error in Hb. destruct Hb as [j Hj].
  pose proof (nth_error_scores a _ _ _ Hj) as Hs.
  unfold selected in H.
  destruct (first_max (scores a amazon_df)) as [[i m]|] eqn:E.
  - apply first_max_spec in E. destruct E as (Hn & Hmax & _).
    destruct (Qgeb m THRESHOLD) eqn:T.
    + destruct (nth_error amazon_df i) eqn:N; [discriminate|].
      apply nth_error_None in N.
      assert (i < List.length (scores a amazon_df))%nat
        by (apply nth_error_Some; congruence).
      rewrite scores_length in *. lia.
    + apply Qleb_gt in T. specialize (Hmax j _ Hs). lra.
  - apply first_max_none in E. unfold scores in E.
    destruct amazon_df; [destruct j; discriminate Hj | discriminate E].
Qed.

(** A source-A record is either paired with a source-B record that scores
    highest against it, at least 0.33, or left alone, and then every
    source-B record scores below 0.33 against it. *)
Lemma emitted_cases (a : Adp.record) (amazon_df : list Amazon.record) :
  (exists b s,
      emitted stored_score amazon_df a = paired_record a b (stored_score s) /\
      In b amazon_df /\
      s = _overlap_score (Adp.adp_name a) (Amazon.amz_name b) /\
      (THRESHOLD <= s)%Q /\
      forall b', In b' amazon_df ->
                 (_overlap_score (Adp.adp_name a) (Amazon.amz_name b') <= s)%Q) \/
  (emitted stored_score amazon_df a = adp_only_record a /\
   forall b, In b amazon_df ->
             (_overlap_score (Adp.adp_name a) (Amazon.amz_name b) < THRESHOLD)%Q).
Proof.
  unfold emitted. destruct (selected a amazon_df) as [[[i b] s]|] eqn:E.
  - left. exists b, s. apply selected_iff in E.
    destruct E as (Hn & Hs & Ht & Hmax & _).
    split; [reflexivity|]. split; [eapply nth_error_In; exact Hn|].
    split; [exact Hs|]. split; [exact Ht|].
    intros b' Hb'. apply In_nth_error in Hb'. destruct Hb' as [j Hj]. eauto.
  - right. split; [reflexivity|]. apply selected_none, E.
Qed.

Lemma prefix_refl (s : string) : prefix s s = true.
Proof.
  induction s as [|c s IH]; simpl; [reflexivity|].
  destruct (ascii_dec c c); [exact IH | contradiction].
Qed.

Lemma contains_refl (s : string) : contains s s = true.
Proof. destruct s; [reflexivity|]. cbn [contains]. now rewrite prefix_refl. Qed.

Lemma _token_matches_self (t : list string) : _token_matches t t = List.length t.
Proof.
  unfold _token_matches. f_equal. apply forallb_filter_id.
  apply forallb_forall. intros a Ha. apply existsb_exists.
  exists a. split; [exact Ha|]. now rewrite contains_refl.
Qed.

(** A name with a token scores 1 against itself. *)
Lemma _overlap_score_self (name : string) :
  _name_tokens name <> [] -> _overlap_score name name = 1%Q.
Proof.
  intros H. unfold _overlap_score.
  destruct (_name_tokens name) as [|t l] eqn:E; [contradiction|].
  rewrite _token_matches_self, Nat.max_id.
  change 1%Q with (Qred 1). apply Qred_complete.
  unfold Qeq. cbn [Qnum Qden].
  rewrite <- (positive_nat_Z (Pos.of_nat _)), Nat2Pos.id by discriminate. lia.
Qed.

Lemma _overlap_score_reduced (name_a name_b : string) :
  Qred (_overlap_score name_a name_b) = _overlap_score name_a name_b.
Proof.
  unfold _overlap_score.
  destruct (_name_tokens name_a); [reflexivity|].
  destruct (_name_tokens name_b); [reflexivity|].
  apply Qred_complete, Qred_correct.
Qed.

(** X4: a source-A record whose very name is carried by some source-B
    record, the name having a token, is paired by the matcher: the list of
    matches holds its pair with a source-B record that scores 1 against
    it, stored with score 1. *)
Theorem exact_name_is_paired (adp_df : list Adp.record) (amazon_df : list Amazon.record)
        (a : Adp.record) (b : Amazon.record) :
  In a adp_df -> In b amazon_df ->
  Amazon.amz_name b = Adp.adp_name a ->
  _name_tokens (Adp.adp_name a) <> [] ->
  exists matches b',
    match_records adp_df amazon_df = Ok matches /\
    In b' amazon_df /\
    _overlap_score (Adp.adp_name a) (Amazon.amz_name b') = 1%Q /\
    In (paired_record a b' 1) matches.
Proof.
  intros Ha Hb Hname Htok. rewrite match_records_described.
  eexists. 
  destruct (emitted_cases a amazon_df)
    as [(b' & s & He & Hb' & Hs & _ & Hmax) | (_ & Hlow)].
  - pose proof (Hmax b Hb) as H1.
    rewrite Hname, (_overlap_score_self _ Htok) in H1.
    pose proof (_overlap_score_bounds (Adp.adp_name a) (Amazon.amz_name b')) as R.
    rewrite <- Hs in R.
    assert (E : s = 1%Q).
    { rewrite Hs, <- _overlap_score_reduced, <- Hs.
      change 1%Q with (Qred 1). apply Qred_complete. lra. }
    exists b'. split; [reflexivity|]. split; [exact Hb'|].
    split; [now rewrite <- Hs|].
    unfold matcher_described. apply in_or_app. left.
    apply in_map_iff. exists a. split; [|exact Ha].
    rewrite He, E. reflexivity.
  - specialize (Hlow b Hb). rewrite Hname, (_overlap_score_self _ Htok) in Hlow.
    exfalso. revert Hlow. apply Qle_not_lt. discriminate.
Qed.

(** The premises hold of a sample. *)
Lemma exact_name_is_paired_sample :
  exists matches b',
    match_records [adp_rec "Zed Young" (CNum 18); adp_rec "Amy Wu" (CNum 20)]
                  [amz_rec "Al Bo" (CNum 25); amz_rec "Amy Wu" (CNum 30)]
    = Ok matches /\
    In b' [amz_rec "Al Bo" (CNum 25); amz_rec "Amy Wu" (CNum 30)] /\
    _overlap_score "Amy Wu" (Amazon.amz_name b') = 1%Q /\
    In (paired_record (adp_rec "Amy Wu" (CNum 20)) b' 1) matches.
Proof.
  apply (exact_name_is_paired
           [adp_rec "Zed Young" (CNum 18); adp_rec "Amy Wu" (CNum 20)]
           [amz_rec "Al Bo" (CNum 25); amz_rec "Amy Wu" (CNum 30)]
           (adp_rec "Amy Wu" (CNum 20)) (amz_rec "Amy Wu" (CNum 30))).
  - simpl. auto.
  - simpl. auto.
  - reflexivity.
  - vm_compute. discriminate.
Defined.

Lemma _overlap_score_tokenless (name_a name_b : string) :
  _name_tokens name_a = [] \/ _name_tokens name_b = [] ->
  _overlap_score name_a name_b = 0%Q.
Proof.
  unfold _overlap_score. intros [-> | ->]; [reflexivity|].
  now destruct (_name_tokens name_a).
Qed.

(** X5: a name without a token (no word of two letters or more) is never
    paired: the list of matches holds the source-A-only record of every
    source-A record with such a name and the source-B-only record of
    every source-B record with such a name, whatever the other frame
    holds. *)
Theorem tokenless_name_is_unmatched (adp_df : list Adp.record)
        (amazon_df : list Amazon.record) :
  exists matches,
    match_records adp_df amazon_df = Ok matches /\
    (forall a, In a adp_df -> _name_tokens (Adp.adp_name a) = [] ->
               In (adp_only_record a) matches) /\
    (forall b, In b amazon_df -> _name_tokens (Amazon.amz_name b) = [] ->
               In (amz_only_record b) matches).
Proof.
  rewrite match_records_described. eexists. split; [reflexivity|].
  unfold matcher_described. split.
  - intros a Ha Ht. apply in_or_app. left. apply in_map_iff.
    exists a. split; [|exact Ha].
    destruct (emitted_cases a amazon_df)
      as [(b & s & _ & _ & Hs & Hle & _) | (He & _)]; [|exact He].
    rewrite (_overlap_score_tokenless _ _ (or_introl Ht)) in Hs. subst s.
    exfalso. revert Hle. apply Qlt_not_le. reflexivity.
  - intros b Hb Ht. apply in_or_app. right.
    apply In_nth_error in Hb. destruct Hb as [i Hi].
    apply in_map_iff. exists (i, b). split; [reflexivity|].
    apply filter_In. split; [now apply In_iterrows|].
    cbn [fst]. apply negb_true_iff.
    destruct (claimed adp_df amazon_df i) eqn:C; [|reflexivity].
    unfold claimed in C. apply existsb_exists in C.
    destruct C as (a & _ & Hsel).
    destruct (selected a amazon_df) as [[[j b'] s]|] eqn:E; [|discriminate].
    apply Nat.eqb_eq in Hsel. subst j.
    apply selected_iff in E. destruct E as (Hn & Hs & Hle & _).
    rewrite Hi in Hn. inversion Hn; subst b'.
    rewrite (_overlap_score_tokenless _ _ (or_intror Ht)) in Hs. subst s.
    exfalso. revert Hle. apply Qlt_not_le. reflexivity.
Qed.

(** ** Nothing is lost by the matcher *)

Lemma emitted_adp_side (amazon_df : list Amazon.record) (a : Adp.record) :
  let r := emitted stored_score amazon_df a in
  adp_name r = Some (Adp.adp_name a) /\
  adp_break_start r = Adp.adp_break_start a /\
  adp_break_end r = Adp.adp_break_end a /\
  adp_break_minutes r = Adp.adp_break_minutes a.
Proof.
  unfold emitted. destruct (selected a amazon_df) as [[[i b] s]|]; repeat split.
Qed.

(** Every source-B record is carried by a record of the matcher. *)
Lemma matcher_described_carries (adp_df : list Adp.record)
      (amazon_df : list Amazon.record) (b : Amazon.record) :
  In b amazon_df ->
  exists r, In r (matcher_described stored_score adp_df amazon_df) /\
            amz_name r = Some (Amazon.amz_name b) /\
            transporter_id r = Amazon.transporter_id b /\
            amz_break_start r = Amazon.amz_break_start b /\
            amz_break_end r = Amazon.amz_break_end b /\
            amz_break_minutes r = Amazon.amz_break_minutes b.
Proof.
  intros Hb. unfold matcher_described.
  apply In_nth_error in Hb. destruct Hb as [i Hi].
  destruct (claimed adp_df amazon_df i) eqn:C.
  - unfold claimed in C. apply existsb_exists in C.
    destruct C as (a & Ha & Hsel).
    destruct (selected a amazon_df) as [[[j b'] s]|] eqn:E; [|discriminate].
    apply Nat.eqb_eq in Hsel. subst j.
    pose proof E as E'. apply selected_iff in E'. destruct E' as (Hn & _).
    rewrite Hi in Hn. inversion Hn; subst b'.
    exists (emitted stored_score amazon_df a). split.
    + apply in_or_app. left. now apply in_map.
    + unfold emitted. rewrite E. repeat split.
  - exists (amz_only_record b). split; [|repeat split].
    apply in_or_app. right. apply in_map_iff. exists (i, b).
    split; [reflexivity|]. apply filter_In.
    split; [now apply In_iterrows | simpl; now rewrite C].
Qed.

Lemma matcher_described_back (adp_df : list Adp.record)
      (amazon_df : list Amazon.record) (r : Row) :
  In r (map (fun it => amz_only_record (snd it))
            (filter (fun it => negb (claimed adp_df amazon_df (fst it)))
                    (iterrows amazon_df))) ->
  exists b, In b amazon_df /\ r = amz_only_record b.
Proof.
  intros Hr. apply in_map_iff in Hr. destruct Hr as ([i b] & <- & Hb).
  exists b. split; [|reflexivity].
  apply filter_In in Hb. destruct Hb as [Hb _].
  unfold iterrows in Hb. now apply in_combine_r in Hb.
Qed.

Lemma matcher_described_back_length (adp_df : list Adp.record)
      (amazon_df : list Amazon.record) :
  (List.length (map (fun it : nat * Amazon.record => amz_only_record (snd it))
                    (filter (fun it => negb (claimed adp_df amazon_df (fst it)))
                            (iterrows amazon_df)))
   <= List.length amazon_df)%nat.
Proof.
  rewrite length_map. etransitivity; [apply filter_length_le|].
  unfold iterrows. rewrite length_combine, length_seq. lia.
Qed.

(** X6: nothing is lost by the matcher.  The list of matches holds one
    record per source-A record, in their order and with their source-A
    fields, followed by records without a source-A side, each the
    source-B-only record of a source-B record and at most one per source-B
    record; and every source-B record is carried, with its fields, by some
    record of the list. *)
Theorem match_records_complete (adp_df : list Adp.record) (amazon_df : list Amazon.record) :
  exists front back,
    match_records adp_df amazon_df = Ok (front ++ back)%list /\
    Forall2 (fun a r =>
               adp_name r = Some (Adp.adp_name a) /\
               adp_break_start r = Adp.adp_break_start a /\
               adp_break_end r = Adp.adp_break_end a /\
               adp_break_minutes r = Adp.adp_break_minutes a)
            adp_df front /\
    Forall (fun r => adp_name r = None /\ exists b, In b amazon_df /\ r = amz_only_record b)
           back /\
    (List.length back <= List.length amazon_df)%nat /\
    forall b, In b amazon_df ->
              exists r, In r (front ++ back)%list /\
                        amz_name r = Some (Amazon.amz_name b) /\
                        transporter_id r = Amazon.transporter_id b /\
                        amz_break_start r = Amazon.amz_break_start b /\
                        amz_break_end r = Amazon.amz_break_end b /\
                        amz_break_minutes r = Amazon.amz_break_minutes b.
Proof.
  rewrite match_records_described.
  eexists. eexists. split; [reflexivity|]. split; [|split; [|split]].
  - apply Forall2_map_same. intros a. apply emitted_adp_side.
  - apply Forall_forall. intros r Hr. split.
    + apply in_map_iff in Hr. now destruct Hr as ([i b] & <- & _).
    + now apply (matcher_described_back adp_df).
  - apply matcher_described_back_length.
  - intros b Hb. apply (matcher_described_carries adp_df amazon_df b Hb).
Qed.

(** ** When the pipeline returns *)

(** The script of a classified row: [build_script] raises exactly on a row
    without Amazon minutes whose ADP minutes are [None], and the script is
    the no-action message exactly when the row needs no action. *)
Lemma build_script_classified (col : list cell) (m : Row) :
  let d := classify col m in
  match build_script d with
  | Raise e =>
      e = TypeError /\
      isna (amz_break_minutes m) = true /\ adp_break_minutes m = CNone
  | Ok s =>
      ~ (isna (amz_break_minutes m) = true /\ adp_break_minutes m = CNone) /\
      (s = script_match <-> needs_action d = Some false) /\
      (needs_action d = Some false <-> severity d = Some "Match")
  end.
Proof.
  unfold classify, build_script, severity_value, _severity, _direction, _diff,
    float_if_any.
  cbn [set_diff_minutes set_severity set_direction set_needs_action
       amz_break_minutes adp_break_minutes diff_minutes severity direction
       needs_action adp_name amz_name].
  set (emp := or_else (adp_name m) (or_else (amz_name m) "Employee")).
  destruct (amz_break_minutes m) as [| |a], (adp_break_minutes m) as [| |b];
    cbn [isna orb];
    try (destruct (existsb is_float col); cbn;
         repeat split; try discriminate; try tauto;
         intros [? ?]; discriminate).
  assert (F : forall x, (if existsb is_float col then as_float (CNum x) else CNum x)
                        = CNum x)
    by (intros; destruct (existsb is_float col); reflexivity).
  rewrite F. cases_Qleb; cbn;
    repeat split; try discriminate; try tauto; try (intros [? ?]; discriminate).
Qed.

Lemma try_map_all_ok {X Y : Type} (f : X -> outcome Y) (l : list X) :
  (forall x, In x l -> exists y, f x = Ok y) -> exists ys, try_map f l = Ok ys.
Proof.
  induction l as [|x l IH]; intros H; simpl; [eauto|].
  destruct (H x (or_introl eq_refl)) as [y ->].
  destruct IH as [ys ->]; [intros z Hz; apply H; now right | eauto].
Qed.

Lemma try_map_raises {X Y : Type} (f : X -> outcome Y) (l : list X) (e : exception) :
  try_map f l = Raise e -> exists x, In x l /\ f x = Raise e.
Proof.
  induction l as [|x l IH]; simpl; [discriminate|].
  destruct (f x) as [y|e'] eqn:E.
  - destruct (try_map f l) as [ys|e'']; [discriminate|].
    intros H. inversion H; subst.
    destruct (IH eq_refl) as (z & Hz & Hf). exists z. auto.
  - intros H. inversion H; subst. exists x. auto.
Qed.

Lemma try_map_length {X Y : Type} (f : X -> outcome Y) (l : list X) (ys : list Y) :
  try_map f l = Ok ys -> List.length ys = List.length l.
Proof.
  revert ys. induction l as [|x l IH]; intros ys H; simpl in H.
  - now inversion H.
  - destruct (f x); [|discriminate].
    destruct (try_map f l) as [ys'|]; [|discriminate].
    inversion H; subst. simpl. now rewrite (IH ys' eq_refl).
Qed.

Lemma matcher_described_nil (adp_df : list Adp.record) (amazon_df : list Amazon.record) :
  matcher_described stored_score adp_df amazon_df = [] <->
  adp_df = [] /\ amazon_df = [].
Proof.
  split.
  - intros H. unfold matcher_described in H.
    apply app_eq_nil in H. destruct H as [H1 H2].
    apply map_eq_nil in H1. subst adp_df. apply map_eq_nil in H2.
    split; [reflexivity|].
    destruct amazon_df as [|b l]; [reflexivity|]. discriminate H2.
  - intros [-> ->]. reflexivity.
Qed.

Lemma float_if_any_isna (col : list cell) (c : cell) :
  isna (float_if_any col c) = isna c.
Proof. unfold float_if_any. destruct (existsb is_float col), c; reflexivity. Qed.

Lemma float_if_any_none (col : list cell) (c : cell) :
  float_if_any col c = CNone <-> c = CNone /\ forall c', In c' col -> c' = CNone.
Proof.
  unfold float_if_any. destruct (existsb is_float col) eqn:E.
  - split.
    + destruct c; discriminate.
    + intros [_ H]. apply existsb_exists in E. destruct E as (c' & Hc' & F).
      rewrite (H c' Hc') in F. discriminate.
  - split; [|tauto]. intros ->. split; [reflexivity|].
    intros c' Hc'. destruct c'; try reflexivity;
      assert (existsb is_float col = true)
        by (apply existsb_exists; eexists; split; [exact Hc' | reflexivity]);
      congruence.
Qed.

Lemma build_script_with_sort_key (r : Row) :
  build_script (with_sort_key r) = build_script r.
Proof. destruct r. reflexivity. Qed.

(** The rows the scripts are computed for, up to their order. *)
Lemma sorted_rows_In (adp_df : list Adp.record) (amazon_df : list Amazon.record) (d : Row) :
  let records := matcher_described stored_score adp_df amazon_df in
  In d (stable_sort (rows (sort_input adp_df amazon_df))) <->
  exists r, In r records /\
            d = with_sort_key
                  (classify (map _diff (map (as_stored records) records))
                            (as_stored records r)).
Proof.
  intros records. unfold sort_input. fold records.
  rewrite rows_keyed. unfold classified. cbn [rows].
  rewrite rows_DataFrame_of_records.
  split.
  - intros H. apply (Permutation_in _ (stable_sort_perm _)) in H.
    rewrite !map_map in H. apply in_map_iff in H.
    destruct H as (r & <- & Hr). exists r. rewrite ?map_map. auto.
  - intros (r & Hr & ->).
    apply (Permutation_in _ (Permutation_sym (stable_sort_perm _))).
    rewrite !map_map. apply in_map_iff. exists r. rewrite ?map_map. auto.
Qed.

Lemma sort_values_sort_input (adp_df : list Adp.record) (amazon_df : list Amazon.record) :
  sort_values (sort_input adp_df amazon_df) =
  match matcher_described stored_score adp_df amazon_df with
  | [] => Raise KeyError
  | _ => Ok (mkFrame (columns (sort_input adp_df amazon_df))
                     (stable_sort (rows (sort_input adp_df amazon_df))))
  end.
Proof.
  unfold sort_values, sort_input.
  destruct (matcher_described stored_score adp_df amazon_df) as [|r l];
    reflexivity.
Qed.

(** Which records make a script fail. *)
Lemma script_fails_iff (adp_df : list Adp.record) (amazon_df : list Amazon.record) :
  let records := matcher_described stored_score adp_df amazon_df in
  (exists d, In d (stable_sort (rows (sort_input adp_df amazon_df))) /\
             exists e, build_script d = Raise e) <->
  (forall r, In r records -> adp_break_minutes r = CNone) /\
  (exists r, In r records /\ isna (amz_break_minutes r) = true).
Proof.
  intros records. split.
  - intros (d & Hd & e & He). apply sorted_rows_In in Hd. fold records in Hd.
    destruct Hd as (r & Hr & ->).
    rewrite build_script_with_sort_key in He.
    pose proof (build_script_classified
                  (map _diff (map (as_stored records) records))
                  (as_stored records r)) as B.
    cbv zeta in B. rewrite He in B. destruct B as (_ & Ha & Hb).
    cbn [as_stored amz_break_minutes adp_break_minutes set_amz_break_minutes
         set_adp_break_minutes] in Ha, Hb.
    rewrite float_if_any_isna in Ha. apply float_if_any_none in Hb.
    destruct Hb as [_ Hall]. split; [|eauto].
    intros r' Hr'. apply Hall. now apply in_map.
  - intros (Hall & r & Hr & Hna).
    exists (with_sort_key (classify (map _diff (map (as_stored records) records))
                                    (as_stored records r))).
    split; [apply sorted_rows_In; fold records; eauto|].
    rewrite build_script_with_sort_key.
    pose proof (build_script_classified
                  (map _diff (map (as_stored records) records))
                  (as_stored records r)) as B.
    cbv zeta in B.
    destruct (build_script _) as [s|e]; [|eauto].
    exfalso. destruct B as (B & _). apply B.
    cbn [as_stored amz_break_minutes adp_break_minutes set_amz_break_minutes
         set_adp_break_minutes].
    rewrite float_if_any_isna. split; [exact Hna|].
    apply float_if_any_none. split; [now apply Hall|].
    intros c Hc. apply in_map_iff in Hc. destruct Hc as (r' & <- & Hr'). now apply Hall.
Qed.

Lemma script_raises_TypeError (adp_df : list Adp.record) (amazon_df : list Amazon.record)
      (d : Row) (e : exception) :
  In d (stable_sort (rows (sort_input adp_df amazon_df))) ->
  build_script d = Raise e -> e = TypeError.
Proof.
  intros Hd He. apply sorted_rows_In in Hd. destruct Hd as (r & _ & ->).
  rewrite build_script_with_sort_key in He.
  match type of He with build_script (classify ?c ?m) = _ =>
    pose proof (build_script_classified c m) as B end.
  cbv zeta in B. rewrite He in B. tauto.
Qed.

(** The three outcomes of [run], on the records of the matcher. *)
Lemma run_cases (adp_df : list Adp.record) (amazon_df : list Amazon.record) :
  let records := matcher_described stored_score adp_df amazon_df in
  let fails := (forall r, In r records -> adp_break_minutes r = CNone) /\
               (exists r, In r records /\ isna (amz_break_minutes r) = true) in
  (records = [] /\ run adp_df amazon_df = Raise KeyError) \/
  (records <> [] /\ fails /\ run adp_df amazon_df = Raise TypeError) \/
  (records <> [] /\ ~ fails /\
   exists df, run adp_df amazon_df = Ok df /\
              List.length (rows df) = List.length records).
Proof.
  intros records fails. rewrite run_steps, sort_values_sort_input.
  pose proof (script_fails_iff adp_df amazon_df) as SF. cbv zeta in SF.
  fold records in SF |- *. fold fails in SF.
  assert (D : records = [] \/ records <> [])
    by (destruct records; [left; reflexivity | right; discriminate]).
  destruct D as [EN|NE].
  { left. split; [exact EN|]. now rewrite EN. }
  right. destruct records as [|r0 l] eqn:ER; [now elim NE|]. rewrite <- ER in *.
  cbn [rows].
  destruct (try_map build_script (stable_sort (rows (sort_input adp_df amazon_df))))
    as [scripts|e] eqn:T.
  - right. split; [exact NE|]. split.
    + intros F. apply (proj2 SF) in F.
      destruct F as (d & Hd & e & He).
      pose proof (try_map_value _ script_value _ _ script_value_ok T) as V.
      assert (A : forall x, In x (stable_sort (rows (sort_input adp_df amazon_df))) ->
                            exists y, build_script x = Ok y).
      { clear -T. revert scripts T.
        induction (stable_sort (rows (sort_input adp_df amazon_df))) as [|x xs IH];
          intros scripts T z Hz; [destruct Hz|]. simpl in T.
        destruct (build_script x) as [y|] eqn:E; [|discriminate].
        destruct (try_map build_script xs) as [ys|] eqn:E'; [|discriminate].
        destruct Hz as [<-|Hz]; [eauto | eapply IH; eauto]. }
      destruct (A d Hd) as [y Hy]. congruence.
    + eexists. split; [reflexivity|].
      unfold set_column. cbn [rows].
      apply try_map_length in T.
      assert (L : forall (rs : list Row) (vs : list string),
                 List.length (write_column set_conversation_script rs vs)
                 = List.length rs).
      { induction rs as [|x rs IH]; intros [|v vs]; simpl; auto. }
      rewrite L.
      rewrite (Permutation_length (stable_sort_perm _)).
      unfold sort_input. rewrite rows_keyed, length_map.
      unfold classified. cbn [rows].
      rewrite length_map, rows_DataFrame_of_records, length_map. reflexivity.
  - left. split; [exact NE|].
    apply try_map_raises in T. destruct T as (d & Hd & He).
    pose proof (script_raises_TypeError _ _ _ _ Hd He) as ->.
    split; [|reflexivity].
    apply (proj1 SF). eauto.
Qed.

(** ** The outcome of the pipeline, read off its inputs *)

Lemma below_threshold_iff (amazon_df : list Amazon.record) (a : Adp.record) :
  below_threshold amazon_df a = true <-> selected a amazon_df = None.
Proof.
  unfold below_threshold. rewrite forallb_forall. split.
  - intros H. destruct (selected a amazon_df) as [[[i b] s]|] eqn:E; [|reflexivity].
    apply selected_iff in E. destruct E as (Hn & Hs & Ht & _).
    apply nth_error_In in Hn. specialize (H b Hn).
    apply negb_true_iff, Qleb_gt in H. subst s. lra.
  - intros H b Hb. apply negb_true_iff, Qleb_gt.
    now apply (selected_none a amazon_df).
Qed.

Lemma is_None_iff (c : cell) : is_None c = true <-> c = CNone.
Proof. destruct c; simpl; split; congruence. Qed.

(** The source-A minutes of the records are those of the source-A frame. *)
Lemma records_adp_minutes (adp_df : list Adp.record) (amazon_df : list Amazon.record) :
  (forall r, In r (matcher_described stored_score adp_df amazon_df) ->
             adp_break_minutes r = CNone) <->
  forallb (fun a => is_None (Adp.adp_break_minutes a)) adp_df = true.
Proof.
  rewrite forallb_forall. split.
  - intros H a Ha. apply is_None_iff.
    rewrite <- (proj2 (proj2 (proj2 (emitted_adp_side amazon_df a)))).
    apply H. unfold matcher_described. apply in_or_app. left. now apply in_map.
  - intros H r Hr. unfold matcher_described in Hr. apply in_app_or in Hr.
    destruct Hr as [Hr|Hr].
    + apply in_map_iff in Hr. destruct Hr as (a & <- & Ha).
      rewrite (proj2 (proj2 (proj2 (emitted_adp_side amazon_df a)))).
      apply is_None_iff. now apply H.
    + apply matcher_described_back in Hr. now destruct Hr as (b & _ & ->).
Qed.

(** A record is without source-B minutes when its source-A record found no
    match, or when the source-B record it carries has none. *)
Lemma records_amz_minutes (adp_df : list Adp.record) (amazon_df : list Amazon.record) :
  (exists r, In r (matcher_described stored_score adp_df amazon_df) /\
             isna (amz_break_minutes r) = true) <->
  existsb (below_threshold amazon_df) adp_df
  || existsb (fun b => isna (Amazon.amz_break_minutes b)) amazon_df = true.
Proof.
  rewrite orb_true_iff, !existsb_exists. split.
  - intros (r & Hr & Hna). unfold matcher_described in Hr.
    apply in_app_or in Hr. destruct Hr as [Hr|Hr].
    + apply in_map_iff in Hr. destruct Hr as (a & <- & Ha).
      unfold emitted in Hna.
      destruct (selected a amazon_df) as [[[i b] s]|] eqn:E.
      * right. exists b. split; [|exact Hna]. now apply selected_In in E.
      * left. exists a. split; [exact Ha|]. now apply below_threshold_iff.
    + apply matcher_described_back in Hr. destruct Hr as (b & Hb & ->).
      right. exists b. auto.
  - intros [(a & Ha & Hlow) | (b & Hb & Hna)].
    + exists (emitted stored_score amazon_df a). split.
      * unfold matcher_described. apply in_or_app. left. now apply in_map.
      * apply below_threshold_iff in Hlow. unfold emitted. now rewrite Hlow.
    + destruct (matcher_described_carries adp_df amazon_df b Hb)
        as (r & Hr & _ & _ & _ & _ & Hm).
      exists r. split; [exact Hr|]. now rewrite Hm.
Qed.

Lemma matcher_described_length (adp_df : list Adp.record)
      (amazon_df : list Amazon.record) :
  (List.length adp_df
   <= List.length (matcher_described stored_score adp_df amazon_df)
   <= List.length adp_df + List.length amazon_df)%nat.
Proof.
  unfold matcher_described. rewrite length_app, length_map.
  pose proof (matcher_described_back_length adp_df amazon_df). lia.
Qed.

(** X7: the outcome of the pipeline on the frames of the two parsers, one
    of them not empty.  It raises [TypeError] exactly on the inputs on
    which a script has no minutes to cite: every source-A record has
    [None] for its break minutes (or there is none), and a source-A record
    scores below 0.33 against every source-B record or a source-B record
    has no break minutes.  On every other input it returns a frame, with
    one row per source-A record and at most one more per source-B
    record. *)
Theorem run_outcome (adp_df : list Adp.record) (amazon_df : list Amazon.record) :
  adp_df <> [] \/ amazon_df <> [] ->
  if no_minutes_to_cite adp_df amazon_df
  then run adp_df amazon_df = Raise TypeError
  else exists df,
      run adp_df amazon_df = Ok df /\
      (List.length adp_df <= List.length (rows df)
       <= List.length adp_df + List.length amazon_df)%nat.
Proof.
  intros NE.
  assert (NR : matcher_described stored_score adp_df amazon_df <> []).
  { intros E. apply matcher_described_nil in E. destruct E, NE; contradiction. }
  pose proof (records_adp_minutes adp_df amazon_df) as A.
  pose proof (records_amz_minutes adp_df amazon_df) as B.
  pose proof (matcher_described_length adp_df amazon_df) as L.
  unfold no_minutes_to_cite.
  destruct (run_cases adp_df amazon_df)
    as [(E & _) | [(_ & (F1 & F2) & R) | (_ & F & df & R & Len)]];
    [contradiction | |].
  - apply A in F1. apply B in F2. rewrite F1, F2. exact R.
  - destruct (forallb _ adp_df && _) eqn:C.
    + exfalso. apply F. apply andb_true_iff in C. destruct C as [C1 C2].
      split; [now apply A | now apply B].
    + exists df. split; [exact R|]. rewrite Len. exact L.
Qed.

(** The premise holds of the frames on which script generation fails, and
    of the sample frames. *)
Lemma run_outcome_sample :
  (if no_minutes_to_cite failing_adp failing_amazon
   then run failing_adp failing_amazon = Raise TypeError
   else exists df,
       run failing_adp failing_amazon = Ok df /\
       (List.length failing_adp <= List.length (rows df)
        <= List.length failing_adp + List.length failing_amazon)%nat).
Proof.
  apply (run_outcome failing_adp failing_amazon). left. discriminate.
Defined.

(** ** The scripts of the frame returned *)

Lemma try_map_each {X Y : Type} (f : X -> outcome Y) (l : list X) (ys : list Y) :
  try_map f l = Ok ys -> forall x, In x l -> exists y, f x = Ok y.
Proof.
  revert ys. induction l as [|x l IH]; intros ys T z Hz; [destruct Hz|].
  simpl in T. destruct (f x) as [y|] eqn:E; [|discriminate].
  destruct (try_map f l) as [ys'|] eqn:E'; [|discriminate].
  destruct Hz as [<-|Hz]; [eauto | eapply IH; eauto].
Qed.

Lemma run_columns (adp_df : list Adp.record) (amazon_df : list Amazon.record)
      (df : DataFrame) :
  run adp_df amazon_df = Ok df -> columns df = result_columns.
Proof.
  rewrite run_steps, sort_values_sort_input.
  unfold sort_input.
  destruct (matcher_described stored_score adp_df amazon_df) as [|r l];
    [discriminate|].
  cbn [rows]. destruct (try_map build_script _); [|discriminate].
  intros H. inversion H. reflexivity.
Qed.

Lemma run_row_script (adp_df : list Adp.record) (amazon_df : list Amazon.record)
      (df : DataFrame) (d : Row) :
  run adp_df amazon_df = Ok df -> In d (rows df) ->
  exists col m s,
    d = with_script (with_sort_key (classify col m)) /\
    build_script (classify col m) = Ok s.
Proof.
  intros R Hd. pose proof (run_rows _ _ _ R) as Rows.
  rewrite Rows in Hd. apply in_map_iff in Hd. destruct Hd as (d0 & <- & Hd0).
  rewrite run_steps, sort_values_sort_input in R.
  destruct (matcher_described stored_score adp_df amazon_df) as [|r0 l] eqn:ER;
    [discriminate|].
  cbn [rows] in R.
  destruct (try_map build_script _) as [scripts|] eqn:T; [|discriminate].
  destruct (try_map_each _ _ _ T d0 Hd0) as [s Hs].
  apply sorted_rows_In in Hd0. cbv zeta in Hd0. destruct Hd0 as (r & _ & ->).
  rewrite build_script_with_sort_key in Hs. eauto.
Qed.

Lemma build_script_with_script (r : Row) :
  build_script (with_script r) = build_script r.
Proof. destruct r. reflexivity. Qed.

(** X8: when the pipeline returns a frame, the frame has the ten columns
    of the matcher followed by diff_minutes, severity, direction,
    needs_action, _sort and conversation_script; every row carries the
    script [build_script] gives for it, and the script is the no-action
    message exactly on the rows whose flag needs_action is false, which
    are the rows of severity Match. *)
Theorem run_scripts (adp_df : list Adp.record) (amazon_df : list Amazon.record)
        (df : DataFrame) :
  run adp_df amazon_df = Ok df ->
  columns df = result_columns /\
  forall d, In d (rows df) ->
            exists s flag,
              conversation_script d = Some s /\ build_script d = Ok s /\
              needs_action d = Some flag /\
              (s = script_match <-> flag = false) /\
              (flag = false <-> severity d = Some "Match").
Proof.
  intros R. split; [now apply (run_columns adp_df amazon_df)|].
  intros d Hd.
  destruct (run_row_script _ _ _ _ R Hd) as (col & m & s & -> & Hs).
  pose proof (build_script_classified col m) as B. cbv zeta in B.
  rewrite Hs in B. destruct B as (_ & B1 & B2).
  destruct (classify_severity col m) as (sv & _ & _ & _ & N & _).
  exists s, (isin (Some sv) action_severities).
  rewrite build_script_with_script, build_script_with_sort_key.
  split; [|split; [exact Hs|split; [exact N|]]].
  - unfold with_script. cbn [conversation_script set_conversation_script].
    f_equal. rewrite <- build_script_with_sort_key in Hs.
    now apply script_value_ok.
  - change (severity (with_script (with_sort_key (classify col m))))
      with (severity (classify col m)).
    rewrite N in B1, B2. split.
    + rewrite B1. split; congruence.
    + rewrite <- B2. split; congruence.
Qed.

(** The premise holds of the sample frames. *)
Lemma run_scripts_sample :
  columns sample_output = result_columns /\
  Forall (fun d => exists s flag,
              conversation_script d = Some s /\ build_script d = Ok s /\
              needs_action d = Some flag /\
              (s = script_match <-> flag = false) /\
              (flag = false <-> severity d = Some "Match"))
         (rows sample_output).
Proof.
  destruct (run_scripts sample_adp sample_amazon sample_output run_sample) as [C F].
  split; [exact C|]. apply Forall_forall. exact F.
Defined.

(** ** Classifying a second time *)

Lemma add_label_present (label : string) (cols : list string) :
  In label cols -> add_label label cols = cols.
Proof.
  intros H. unfold add_label.
  assert (E : existsb (String.eqb label) cols = true).
  { apply existsb_exists. exists label. split; [exact H | apply String.eqb_refl]. }
  now rewrite E.
Qed.

Lemma In_add_label (label l : string) (cols : list string) :
  In l (add_label label cols) <-> l = label \/ In l cols.
Proof.
  unfold add_label. destruct (existsb (String.eqb label) cols) eqn:E.
  - split; [auto|]. intros [->|H]; [|exact H].
    apply existsb_exists in E. destruct E as (x & Hx & Ex).
    apply String.eqb_eq in Ex. now subst x.
  - rewrite in_app_iff. simpl. intuition congruence.
Qed.

Lemma _diff_classify (col : list cell) (r : Row) : _diff (classify col r) = _diff r.
Proof. destruct r. reflexivity. Qed.

Lemma classify_classify (col : list cell) (r : Row) :
  classify col (classify col r) = classify col r.
Proof.
  unfold classify at 1. rewrite _diff_classify.
  destruct r. reflexivity.
Qed.

Lemma classified_classified (df : DataFrame) : classified (classified df) = classified df.
Proof.
  unfold classified at 1 3. cbn [rows columns]. f_equal.
  - set (c := columns (classified df)).
    assert (H : forall l, In l ["diff_minutes"; "severity"; "direction"; "needs_action"] ->
                          In l c).
    { intros l Hl. unfold c, classified. cbn [columns].
      rewrite !In_add_label. simpl in Hl.
      destruct Hl as [<-|[<-|[<-|[<-|[]]]]]; tauto. }
    rewrite (add_label_present "diff_minutes" c) by (apply H; simpl; tauto).
    rewrite (add_label_present "severity" c) by (apply H; simpl; tauto).
    rewrite (add_label_present "direction" c) by (apply H; simpl; tauto).
    rewrite (add_label_present "needs_action" c) by (apply H; simpl; tauto).
    reflexivity.
  - unfold classified. cbn [rows]. rewrite !map_map.
    apply map_ext. intros r.
    replace (map (fun x => _diff (classify (map _diff (rows df)) x)) (rows df))
      with (map _diff (rows df))
      by (apply map_ext; intros; now rewrite _diff_classify).
    apply classify_classify.
Qed.

(** X9: the classifier is idempotent: run a second time on the frame it
    returned, it leaves every column and every row as the first run left
    them. *)
Theorem calculate_discrepancies_idempotent (df : DataFrame) :
  frame_of (classify_again df) = frame_of (classify_frame df).
Proof.
  rewrite classify_frame_ok.
  unfold frame_of, classify_again, bind, new_frame. cbn [List.length app].
  rewrite (calculate_discrepancies_in_place [df] 0%nat df eq_refl).
  cbn [replace_nth].
  rewrite (calculate_discrepancies_in_place [classified df] 0%nat (classified df) eq_refl).
  cbn [replace_nth nth_error]. now rewrite classified_classified.
Qed.

(** ** The metric cards of the dashboard *)

Lemma run_row_severity (adp_df : list Adp.record) (amazon_df : list Amazon.record)
      (df : DataFrame) (d : Row) :
  run adp_df amazon_df = Ok df -> In d (rows df) ->
  exists s, In s ["Match"; "Minor"; "Moderate"; "Major"; "Missing Entry"] /\
            severity d = Some s /\
            needs_action d = Some (isin (Some s) action_severities).
Proof.
  intros R Hd.
  destruct (run_row_script _ _ _ _ R Hd) as (col & m & _ & -> & _).
  destruct (classify_severity col m) as (s & S & Hs & _ & N & _).
  exists s. split; [exact Hs|]. split; [exact S | exact N].
Qed.

(** Counting the rows severity by severity. *)
Lemma counts_add_up (df : DataFrame) :
  (forall d, In d (rows df) ->
             exists s, In s ["Match"; "Minor"; "Moderate"; "Major"; "Missing Entry"] /\
                       severity d = Some s /\
                       needs_action d = Some (isin (Some s) action_severities)) ->
  List.length (rows df)
  = (counts_get df "Major" + counts_get df "Moderate" + counts_get df "Minor"
     + counts_get df "Missing Entry" + counts_get df "Match")%nat /\
  needs df
  = (counts_get df "Major" + counts_get df "Moderate" + counts_get df "Minor"
     + counts_get df "Missing Entry")%nat.
Proof.
  unfold counts_get, needs. induction (rows df) as [|d l IH]; intros H.
  - split; reflexivity.
  - destruct IH as [IH1 IH2]; [intros x Hx; apply H; now right|].
    destruct (H d (or_introl eq_refl)) as (s & Hs & S & N).
    cbn [filter]. rewrite S, N.
    simpl in Hs. destruct Hs as [<-|[<-|[<-|[<-|[<-|[]]]]]];
      cbn; rewrite ?IH1, ?IH2; split; lia.
Qed.

(** X10: on a frame returned by the pipeline [render_metrics] does not
    raise, and its cards add up: the card of the total is the sum of the
    five severity cards, and the card of the employees who need action is
    the sum of the cards Major, Moderate, Minor and Missing Entry. *)
Theorem metric_cards_add_up (adp_df : list Adp.record) (amazon_df : list Amazon.record)
        (df : DataFrame) :
  run adp_df amazon_df = Ok df ->
  (exists html, render_metrics df = Ok html) /\
  exists major moderate minor missing matched : nat,
    cards df =
    [("total", (major + moderate + minor + missing + matched)%nat, "Total Employees");
     ("action", (major + moderate + minor + missing)%nat, "Need Action");
     ("major", major, "Major");
     ("mod", moderate, "Moderate");
     ("minor", minor, "Minor");
     ("missing", missing, "Missing Entry");
     ("match", matched, "Match")].
Proof.
  intros R. split.
  - unfold render_metrics, has_column.
    rewrite (run_columns _ _ _ R). cbn. eauto.
  - destruct (counts_add_up df) as [T N].
    { intros d Hd. exact (run_row_severity _ _ _ _ R Hd). }
    exists (counts_get df "Major"), (counts_get df "Moderate"),
      (counts_get df "Minor"), (counts_get df "Missing Entry"),
      (counts_get df "Match").
    unfold cards. now rewrite T, N.
Qed.

(** The premise holds of the sample frames. *)
Lemma metric_cards_add_up_sample :
  (exists html, render_metrics sample_output = Ok html) /\
  exists major moderate minor missing matched : nat,
    cards sample_output =
    [("total", (major + moderate + minor + missing + matched)%nat, "Total Employees");
     ("action", (major + moderate + minor + missing)%nat, "Need Action");
     ("major", major, "Major");
     ("mod", moderate, "Moderate");
     ("minor", minor, "Minor");
     ("missing", missing, "Missing Entry");
     ("match", matched, "Match")].
Proof.
  exact (metric_cards_add_up sample_adp sample_amazon sample_output run_sample).
Defined.

(** ** The station of the sidebar *)

Lemma upper_app (s1 s2 : string) : upper (s1 ++ s2) = (upper s1 ++ upper s2)%list.
Proof.
  unfold upper. induction s1 as [|c s1 IH]; simpl; [reflexivity|].
  now rewrite IH, app_assoc.
Qed.

(** A text that starts a longer one stops before any character it does not
    hold. *)
Lemma starts_with_app (x : N) (a l1 l2 : list N) :
  ~ In x a ->
  starts_with a (l1 ++ x :: l2)%list = starts_with a l1.
Proof.
  revert l1. induction a as [|y a IH]; intros l1 H; [now destruct l1|].
  destruct l1 as [|z l1]; simpl.
  - destruct (N.eqb_spec y x) as [->|]; [|reflexivity].
    exfalso. apply H. now left.
  - rewrite IH; [reflexivity|]. intros Hx. apply H. now right.
Qed.

Lemma starts_with_nil (a : list N) : a <> [] -> starts_with a [] = false.
Proof. destruct a; [contradiction | reflexivity]. Qed.

(** A text without the character [x] occurs in two texts joined by [x]
    when it occurs in one of them. *)
Lemma occurs_join (x : N) (a l1 l2 : list N) :
  a <> [] -> ~ In x a ->
  occurs a (l1 ++ x :: l2)%list = occurs a l1 || occurs a l2.
Proof.
  intros NE H. induction l1 as [|z l1 IH].
  - pose proof (starts_with_app x a [] l2 H) as S0. cbn [app] in S0.
    cbn [app occurs]. now rewrite S0, (starts_with_nil a NE).
  - pose proof (starts_with_app x a (z :: l1) l2 H) as S1. cbn [app] in S1.
    cbn [app occurs]. now rewrite S1, IH, orb_assoc.
Qed.

Lemma occurs_combined (s adp_name amz_name : string) :
  In s KNOWN_STATIONS ->
  occurs (code_points s) (upper (adp_name ++ " " ++ amz_name))
  = occurs (code_points s) (upper adp_name) || occurs (code_points s) (upper amz_name).
Proof.
  intros Hs. rewrite upper_app.
  change (upper (" " ++ amz_name)) with (32%N :: upper amz_name).
  apply occurs_join;
    destruct Hs as [<-|[<-|[]]]; vm_compute; try discriminate;
    intuition discriminate.
Qed.

(** X11: the station is looked for in each of the two file names, read in
    upper case, and never across the blank that joins them; DFH1 is
    looked for first, and without a station the result is the empty
    text. *)
Theorem detect_station_by_name (adp_name amz_name : string) :
  detect_station adp_name amz_name =
  if occurs (code_points "DFH1") (upper adp_name)
     || occurs (code_points "DFH1") (upper amz_name) then "DFH1"
  else if occurs (code_points "DVB8") (upper adp_name)
          || occurs (code_points "DVB8") (upper amz_name) then "DVB8"
  else EmptyString.
Proof.
  unfold detect_station, KNOWN_STATIONS. cbn [find].
  rewrite !occurs_combined by (simpl; auto).
  destruct (occurs (code_points "DFH1") (upper adp_name)
            || occurs (code_points "DFH1") (upper amz_name)); [reflexivity|].
  destruct (occurs (code_points "DVB8") (upper adp_name)
            || occurs (code_points "DVB8") (upper amz_name)); reflexivity.
Qed.

Lemma auto_station_cases (adp_file amazon_file : option string) :
  let auto := auto_station adp_file amazon_file in
  auto = "DFH1" \/ auto = "DVB8" \/ auto = EmptyString.
Proof.
  unfold auto_station.
  destruct adp_file as [a|]; [|auto]. destruct amazon_file as [b|]; [|auto].
  unfold detect_station, KNOWN_STATIONS. cbn [find].
  destruct (occurs (code_points "DFH1") _); [auto|].
  destruct (occurs (code_points "DVB8") _); auto.
Qed.

(** X12: whatever is uploaded, the options of the station selector have
    no duplicates and the selector opens on the station detected.  When a
    station is detected the options are the two known stations; when none
    is (also when a file is not uploaded yet), an empty option is added
    after them and the selector opens on it. *)
Theorem selector_opens_on_detected (adp_file amazon_file : option string) :
  let auto := auto_station adp_file amazon_file in
  nth_error (station_options auto) (default_idx auto) = Some auto /\
  NoDup (station_options auto) /\
  (In auto KNOWN_STATIONS -> station_options auto = KNOWN_STATIONS) /\
  (~ In auto KNOWN_STATIONS ->
   auto = EmptyString /\
   station_options auto = (KNOWN_STATIONS ++ [EmptyString])%list /\
   default_idx auto = 2%nat).
Proof.
  intros auto.
  destruct (auto_station_cases adp_file amazon_file) as [E|[E|E]];
    fold auto in E; rewrite E; cbn;
    (split; [reflexivity|]);
    (split; [repeat (apply NoDup_cons; [simpl; intuition discriminate|]);
             apply NoDup_nil|]);
    (split; [intros H; first [reflexivity | intuition discriminate]|]).
  - intros H. exfalso. apply H. auto.
  - intros H. exfalso. apply H. auto.
  - intros _. auto.
Qed.
